(** * Brewing water calculator: the optimizer, its callers and their contracts

    A shallow embedding of the TypeScript sources
    [salts.ts], [validator.ts], [brewing-analysis.ts], [optimizer-qp.ts],
    [optimizer.ts] and [calculator.ts], followed by the properties the
    specification states about them.

    Numbers.  A JavaScript [number] is modelled by [number] below: a finite
    value is an exact rational ([Qc], canonical so that Leibniz equality is
    value equality), and the three non-finite values [Infinity], [-Infinity]
    and [NaN] are kept, with the IEEE rules for them.  A finite sum,
    product or quotient is the exact rational: binary64 rounding, overflow
    to an infinity, underflow and the sign of zero are not modelled.
    Properties whose truth depends on the size of the numbers (finiteness,
    the sign of a quadratic form, a sum that vanishes) are therefore stated
    for volumes and profiles that validation accepts.

    Effects.  [console.error], the call of the external QP solver and
    exceptions are modelled by a small monad [M] that threads a log of
    events and returns a completion (normal value or thrown [Error]). *)

From Stdlib Require Import ZArith QArith Qcanon Qround List String Ascii Bool Lia Lqa.
From Stdlib Require DecimalString.
Import ListNotations.

Local Open Scope string_scope.
Local Open Scope list_scope.

(* ================================================================== *)
(** ** JavaScript numbers *)

Inductive number : Type :=
| Fin (q : Qc)
| PInf
| NInf
| NaN.

(** A decimal literal of the source, e.g. [lit 232.8]. *)
Definition lit (q : Q) : number := Fin (Q2Qc q).
Arguments lit q%_Q.

Definition Qc_sign (q : Qc) : comparison := Qccompare q (Q2Qc 0).

Definition Qc_ltb (a b : Qc) : bool :=
  match Qccompare a b with Lt => true | _ => false end.

Definition Qc_leb (a b : Qc) : bool :=
  match Qccompare a b with Gt => false | _ => true end.

(** [a + b]; a finite sum is exact. *)
Definition js_add (a b : number) : number :=
  match a, b with
  | NaN, _ | _, NaN => NaN
  | Fin x, Fin y => Fin (x + y)%Qc
  | PInf, NInf | NInf, PInf => NaN
  | PInf, _ | _, PInf => PInf
  | NInf, _ | _, NInf => NInf
  end.

(** unary [-a] *)
Definition js_neg (a : number) : number :=
  match a with
  | Fin x => Fin (- x)%Qc
  | PInf => NInf
  | NInf => PInf
  | NaN => NaN
  end.

(** [a - b] *)
Definition js_sub (a b : number) : number := js_add a (js_neg b).

(** The infinity carrying the sign [s] of a product or quotient; a zero
    factor against an infinity gives [NaN]. *)
Definition inf_of_sign (s : comparison) : number :=
  match s with Gt => PInf | Lt => NInf | Eq => NaN end.

Definition flip_sign (s : comparison) : comparison :=
  match s with Gt => Lt | Lt => Gt | Eq => Eq end.

(** [a * b]; a finite product is exact. *)
Definition js_mul (a b : number) : number :=
  match a, b with
  | NaN, _ | _, NaN => NaN
  | Fin x, Fin y => Fin (x * y)%Qc
  | Fin x, PInf | PInf, Fin x => inf_of_sign (Qc_sign x)
  | Fin x, NInf | NInf, Fin x => inf_of_sign (flip_sign (Qc_sign x))
  | PInf, PInf | NInf, NInf => PInf
  | PInf, NInf | NInf, PInf => NInf
  end.

(** [a / b].  A finite value divided by zero is an infinity of the sign of
    the numerator ([0 / 0] is [NaN]); the zero is taken as [+0].  A finite
    quotient by a non-zero value is exact. *)
Definition js_div (a b : number) : number :=
  match a, b with
  | NaN, _ | _, NaN => NaN
  | Fin x, Fin y =>
      match Qc_sign y with
      | Eq => inf_of_sign (Qc_sign x)
      | _ => Fin (x / y)%Qc
      end
  | Fin _, (PInf | NInf) => Fin (Q2Qc 0)
  | PInf, Fin y => match Qc_sign y with Lt => NInf | _ => PInf end
  | NInf, Fin y => match Qc_sign y with Lt => PInf | _ => NInf end
  | (PInf | NInf), (PInf | NInf) => NaN
  end.

(** [a < b]; every comparison with [NaN] is false. *)
Definition js_lt (a b : number) : bool :=
  match a, b with
  | NaN, _ | _, NaN => false
  | Fin x, Fin y => Qc_ltb x y
  | NInf, (Fin _ | PInf) => true
  | Fin _, PInf => true
  | _, _ => false
  end.

(** [a <= b] *)
Definition js_le (a b : number) : bool :=
  match a, b with
  | NaN, _ | _, NaN => false
  | Fin x, Fin y => Qc_leb x y
  | NInf, _ => true
  | _, PInf => true
  | _, _ => false
  end.

(** [a > b] and [a >= b] *)
Definition js_gt (a b : number) : bool := js_lt b a.
Definition js_ge (a b : number) : bool := js_le b a.

(** [isFinite(a)] *)
Definition isFinite (a : number) : bool :=
  match a with Fin _ => true | _ => false end.

(** Truthiness of a number: [0] and [NaN] are falsy. *)
Definition truthy (a : number) : bool :=
  match a with
  | Fin x => match Qc_sign x with Eq => false | _ => true end
  | PInf | NInf => true
  | NaN => false
  end.

(** [a || b] where [a] may be [undefined] ([None]). *)
Definition js_or (a : option number) (b : number) : number :=
  match a with
  | Some x => if truthy x then x else b
  | None => b
  end.

(** ToNumber of a possibly [undefined] value read from an array or object. *)
Definition to_number (a : option number) : number :=
  match a with Some x => x | None => NaN end.

Definition Z2Qc (z : Z) : Qc := Q2Qc (inject_Z z).

(** [Math.round(a)]: the nearest integer, ties towards [+Infinity]. *)
Definition Math_round (a : number) : number :=
  match a with
  | Fin x => Fin (Z2Qc (Qfloor (x + Q2Qc 0.5)%Qc))
  | other => other
  end.

(** Rendering of a number inside a template literal.  The source only ever
    embeds the constants of [VALIDATION_RANGES], which are decimals; a
    terminating decimal is printed as JavaScript prints it. *)
Fixpoint show_fraction (fuel : nat) (r : Z) (d : Z) : string :=
  match fuel with
  | O => ""
  | S fuel' =>
      if (r =? 0)%Z then ""
      else (DecimalString.NilZero.string_of_int (Z.to_int (10 * r / d))
              ++ show_fraction fuel' ((10 * r) mod d)%Z d)%string
  end.

Definition show_number (a : number) : string :=
  match a with
  | Fin x =>
      let n := Qnum x in
      let d := Zpos (Qden x) in
      let whole := (Z.abs n / d)%Z in
      let rest := (Z.abs n mod d)%Z in
      ((if (n <? 0)%Z then "-" else "")
         ++ DecimalString.NilZero.string_of_int (Z.to_int whole)
         ++ (if (rest =? 0)%Z then "" else "." ++ show_fraction 20 rest d))%string
  | PInf => "Infinity"
  | NInf => "-Infinity"
  | NaN => "NaN"
  end.

(* ================================================================== *)
(** ** Arrays, objects and loops *)

(** [a[i]]: [undefined] past the end. *)
Definition arr_get {T : Type} (a : list T) (i : nat) : option T := nth_error a i.

(** [a[i] = v].  Inside the array the element is replaced; at
    [i = a.length] the array grows by one element, which is the only
    out-of-range assignment the source performs.  Further out JavaScript
    leaves holes, filled here with [hole]. *)
Fixpoint arr_set {T : Type} (hole : T) (a : list T) (i : nat) (v : T) : list T :=
  match a, i with
  | [], O => [v]
  | [], S i' => hole :: arr_set hole [] i' v
  | _ :: rest, O => v :: rest
  | x :: rest, S i' => x :: arr_set hole rest i' v
  end.

(** [m[i][j]] read inside an arithmetic expression. *)
Definition mat_get (m : list (list number)) (i j : nat) : number :=
  match arr_get m i with
  | Some row => to_number (arr_get row j)
  | None => NaN
  end.

(** [m[i][j] = v]; the row [m[i]] has always been created before. *)
Definition mat_set (m : list (list number)) (i j : nat) (v : number)
  : list (list number) :=
  match arr_get m i with
  | Some row => arr_set [] m i (arr_set NaN row j v)
  | None => m
  end.

(** [for (let i = lo; i <= hi; i++) body], the loop state passed along. *)
Fixpoint for_count {S : Type} (i n : nat) (body : nat -> S -> S) (s : S) : S :=
  match n with
  | O => s
  | Datatypes.S n' => for_count (Datatypes.S i) n' body (body i s)
  end.

Definition for_le {S : Type} (lo hi : nat) (body : nat -> S -> S) (s : S) : S :=
  for_count lo (hi + 1 - lo) body s.

(** An object with string keys and number values, in insertion order
    (the order of [Object.keys], [Object.values] and [Object.entries]). *)
Definition JsObject := list (string * number).

Fixpoint obj_get (o : JsObject) (k : string) : option number :=
  match o with
  | [] => None
  | (k', v) :: rest => if String.eqb k' k then Some v else obj_get rest k
  end.

(** [o[k] = v]: the value of an existing key is replaced in place, a new
    key is added at the end. *)
Fixpoint obj_set (o : JsObject) (k : string) (v : number) : JsObject :=
  match o with
  | [] => [(k, v)]
  | (k', v') :: rest =>
      if String.eqb k' k then (k', v) :: rest else (k', v') :: obj_set rest k v
  end.

(** [Object.keys(o)] *)
Definition Object_keys (o : JsObject) : list string := map fst o.

(** [array.join(sep)] *)
Fixpoint join (sep : string) (l : list string) : string :=
  match l with
  | [] => ""
  | [s] => s
  | s :: rest => (s ++ sep ++ join sep rest)%string
  end.

(* ================================================================== *)
(** ** types.ts *)

Inductive Ion : Type := IonCa | IonMg | IonNa | IonSO4 | IonCl | IonHCO3.

Definition Ion_eqb (a b : Ion) : bool :=
  match a, b with
  | IonCa, IonCa | IonMg, IonMg | IonNa, IonNa
  | IonSO4, IonSO4 | IonCl, IonCl | IonHCO3, IonHCO3 => true
  | _, _ => false
  end.

Definition ion_name (i : Ion) : string :=
  match i with
  | IonCa => "Ca" | IonMg => "Mg" | IonNa => "Na"
  | IonSO4 => "SO4" | IonCl => "Cl" | IonHCO3 => "HCO3"
  end.

Record WaterProfile : Type := mkWaterProfile {
  Ca : number;
  Mg : number;
  Na : number;
  SO4 : number;
  Cl : number;
  HCO3 : number
}.

(** [profile[ion]] *)
Definition get_ion (p : WaterProfile) (i : Ion) : number :=
  match i with
  | IonCa => Ca p | IonMg => Mg p | IonNa => Na p
  | IonSO4 => SO4 p | IonCl => Cl p | IonHCO3 => HCO3 p
  end.

(** [profile[ion] = v] on a copy *)
Definition set_ion (p : WaterProfile) (i : Ion) (v : number) : WaterProfile :=
  match i with
  | IonCa => mkWaterProfile v (Mg p) (Na p) (SO4 p) (Cl p) (HCO3 p)
  | IonMg => mkWaterProfile (Ca p) v (Na p) (SO4 p) (Cl p) (HCO3 p)
  | IonNa => mkWaterProfile (Ca p) (Mg p) v (SO4 p) (Cl p) (HCO3 p)
  | IonSO4 => mkWaterProfile (Ca p) (Mg p) (Na p) v (Cl p) (HCO3 p)
  | IonCl => mkWaterProfile (Ca p) (Mg p) (Na p) (SO4 p) v (HCO3 p)
  | IonHCO3 => mkWaterProfile (Ca p) (Mg p) (Na p) (SO4 p) (Cl p) v
  end.

(** [SaltAdditions] is an object keyed by the salt names (the interface
    has an index signature, so any string key is allowed). *)
Definition SaltAdditions := JsObject.

Record CalculationInput : Type := mkCalculationInput {
  volume_liters : number;
  base_profile : WaterProfile;
  target_profile : WaterProfile
}.

Record BrewingAnalysis : Type := mkBrewingAnalysis {
  alkalinity : number;
  residual_alkalinity : number;
  sulfate_chloride_ratio : option number;   (* null if Cl is 0 *)
  sulfate_chloride_balance : string;
  total_hardness : number;
  effective_hardness : number;
  color_range : string
}.

Record CalculationResult : Type := mkCalculationResult {
  success : bool;
  error : option string;
  additions : SaltAdditions;
  calculated_profile : WaterProfile;
  result_deviations : WaterProfile;         (* field [deviations] *)
  total_salt_weight : number;
  brewing_analysis : BrewingAnalysis
}.

(** [OptimizationResult], with the optional [iterations] that
    optimizer.ts adds to it. *)
Record OptimizationResult : Type := mkOptimizationResult {
  saltAdditions : SaltAdditions;
  saltAdditionsDisplay : SaltAdditions;
  calculatedProfile : WaterProfile;
  deviations : WaterProfile;
  feasible : bool;
  iterations : option nat
}.

(* ================================================================== *)
(** ** Effects: the event log, exceptions and the external solver *)

Inductive JsError : Type := Error (message : string).

Definition error_message (e : JsError) : string :=
  match e with Error m => m end.

Inductive Event : Type :=
| SolveQPCalled                      (* the quadprog solver was invoked *)
| ConsoleError (label : string) (e : JsError).

Inductive completion (A : Type) : Type :=
| Normal (a : A)
| Thrown (e : JsError).
Arguments Normal {A} a.
Arguments Thrown {A} e.

Definition M (A : Type) : Type := list Event -> completion A * list Event.

Definition ret {A : Type} (a : A) : M A := fun log => (Normal a, log).

Definition throw {A : Type} (e : JsError) : M A := fun log => (Thrown e, log).

Definition bind {A B : Type} (m : M A) (k : A -> M B) : M B :=
  fun log =>
    match m log with
    | (Normal a, log') => k a log'
    | (Thrown e, log') => (Thrown e, log')
    end.

(** [try { body } catch (error) { handler }] *)
Definition try_catch {A : Type} (body : M A) (handler : JsError -> M A) : M A :=
  fun log =>
    match body log with
    | (Normal a, log') => (Normal a, log')
    | (Thrown e, log') => handler e log'
    end.

Definition emit (ev : Event) : M unit := fun log => (Normal tt, log ++ [ev]).

(** Lifting of a completion computed outside the monad. *)
Definition lift {A : Type} (c : completion A) : M A := fun log => (c, log).

Declare Scope js_scope.
Delimit Scope js_scope with js.
Notation "x <- m ;; k" := (bind m (fun x => k))
  (at level 61, m at next level, right associativity) : js_scope.
Notation "m ;;; k" := (bind m (fun _ => k))
  (at level 61, right associativity) : js_scope.

(** The value [solveQP] of quadprog.d.ts returns; the source guards against
    a missing result and a missing [solution], so both are optional here. *)
Record QPResult : Type := mkQPResult {
  solution : option (list number);
  message : option string
}.

(** [solveQP(Dmat, dvec, Amat, bvec, meq)]: a black box that may throw. *)
Definition SolveQP : Type :=
  list (list number) -> list number -> list (list number) -> list number ->
  nat -> completion (option QPResult).

(** The environment of a run: what [await import("quadprog")] gives. *)
Record Env : Type := mkEnv {
  import_quadprog : completion SolveQP
}.

(** A call of the imported solver, recorded in the log. *)
Definition call_solveQP (solveQP : SolveQP) (Dmat : list (list number))
  (dvec : list number) (Amat : list (list number)) (bvec : list number)
  (meq : nat) : M (option QPResult) :=
  fun log => (solveQP Dmat dvec Amat bvec meq, log ++ [SolveQPCalled]).

(* ================================================================== *)
(** ** salts.ts *)

(** An object whose keys are ions, in insertion order. *)
Definition IonObject := list (Ion * number).

Fixpoint ion_obj_get (o : IonObject) (i : Ion) : option number :=
  match o with
  | [] => None
  | (k, v) :: rest => if Ion_eqb k i then Some v else ion_obj_get rest i
  end.

(** The display-only field [formula] is left out. *)
Record Salt : Type := mkSalt {
  name : string;
  molecularWeight : number;
  contributions : IonObject;     (* mg ion per g salt per L water *)
  solubility : number            (* g/L at 20 C *)
}.

Definition BREWING_SALTS : list Salt :=
  [ mkSalt "Gypsum (CaSO4)" (lit 172.17)
      [(IonCa, lit 232.8); (IonSO4, lit 557.9)] (lit 2.1);
    mkSalt "Calcium Chloride (CaCl2)" (lit 147.01)
      [(IonCa, lit 272.6); (IonCl, lit 482.3)] (lit 745);
    mkSalt "Epsom Salt (MgSO4)" (lit 246.47)
      [(IonMg, lit 98.6); (IonSO4, lit 389.6)] (lit 710);
    mkSalt "Table Salt (NaCl)" (lit 58.44)
      [(IonNa, lit 393.4); (IonCl, lit 606.6)] (lit 360);
    mkSalt "Baking Soda (NaHCO3)" (lit 84.01)
      [(IonNa, lit 273.6); (IonHCO3, lit 726.4)] (lit 96) ].

(** [SALT_BY_NAME[n]] *)
Definition SALT_BY_NAME (n : string) : option Salt :=
  find (fun s => String.eqb (name s) n) BREWING_SALTS.

(** [SALT_BY_NAME[n].contributions.ion!] *)
Definition contribution_of (n : string) (i : Ion) : number :=
  match SALT_BY_NAME n with
  | Some s => to_number (ion_obj_get (contributions s) i)
  | None => NaN
  end.

Record IonContributions : Type := mkIonContributions {
  gypsum : IonObject;
  calciumChloride : IonObject;
  epsomSalt : IonObject;
  tableSalt : IonObject;
  bakingSoda : IonObject
}.

Definition ION_CONTRIBUTIONS : IonContributions := {|
  gypsum :=
    [(IonCa, contribution_of "Gypsum (CaSO4)" IonCa);
     (IonSO4, contribution_of "Gypsum (CaSO4)" IonSO4)];
  calciumChloride :=
    [(IonCa, contribution_of "Calcium Chloride (CaCl2)" IonCa);
     (IonCl, contribution_of "Calcium Chloride (CaCl2)" IonCl)];
  epsomSalt :=
    [(IonMg, contribution_of "Epsom Salt (MgSO4)" IonMg);
     (IonSO4, contribution_of "Epsom Salt (MgSO4)" IonSO4)];
  tableSalt :=
    [(IonNa, contribution_of "Table Salt (NaCl)" IonNa);
     (IonCl, contribution_of "Table Salt (NaCl)" IonCl)];
  bakingSoda :=
    [(IonNa, contribution_of "Baking Soda (NaHCO3)" IonNa);
     (IonHCO3, contribution_of "Baking Soda (NaHCO3)" IonHCO3)]
|}.

(* ================================================================== *)
(** ** validator.ts *)

Record ValidationResult : Type := mkValidationResult {
  valid : bool;
  errors : list string
}.

Record Range : Type := mkRange { min : number; max : number }.

Definition VALIDATION_RANGES_volume : Range := mkRange (lit 0.1) (lit 1000).

Definition VALIDATION_RANGES_ions (i : Ion) : Range :=
  match i with
  | IonCa => mkRange (lit 0) (lit 1000)
  | IonMg => mkRange (lit 0) (lit 200)
  | IonNa => mkRange (lit 0) (lit 500)
  | IonSO4 => mkRange (lit 0) (lit 2000)
  | IonCl => mkRange (lit 0) (lit 1000)
  | IonHCO3 => mkRange (lit 0) (lit 1000)
  end.

Definition requiredIons : list Ion :=
  [IonCa; IonMg; IonNa; IonSO4; IonCl; IonHCO3].

Definition validateWaterProfile (profile : WaterProfile) (profileType : string)
  : ValidationResult :=
  let errs :=
    fold_left
      (fun (errs : list string) (ion : Ion) =>
         let value := get_ion profile ion in
         if negb (isFinite value) then
           errs ++ [(profileType ++ " profile: " ++ ion_name ion
                       ++ " must be a valid number")%string]
         else
           let range := VALIDATION_RANGES_ions ion in
           if js_lt value (min range) || js_gt value (max range) then
             errs ++ [(profileType ++ " profile: " ++ ion_name ion
                         ++ " must be between " ++ show_number (min range)
                         ++ " and " ++ show_number (max range) ++ " ppm")%string]
           else errs)
      requiredIons [] in
  mkValidationResult (Nat.eqb (List.length errs) 0) errs.

Definition validateInputs (volumeLiters : number)
  (baseProfile targetProfile : WaterProfile) : ValidationResult :=
  let errs : list string :=
    if negb (isFinite volumeLiters) then
      ["volume must be a valid number"]
    else if js_le volumeLiters (lit 0) then
      ["volume must be positive"]
    else if js_lt volumeLiters (min VALIDATION_RANGES_volume)
            || js_gt volumeLiters (max VALIDATION_RANGES_volume) then
      [("volume must be between " ++ show_number (min VALIDATION_RANGES_volume)
          ++ " and " ++ show_number (max VALIDATION_RANGES_volume)
          ++ " liters")%string]
    else [] in
  let baseValidation := validateWaterProfile baseProfile "base" in
  let targetValidation := validateWaterProfile targetProfile "target" in
  let errs := errs ++ errors baseValidation ++ errors targetValidation in
  mkValidationResult (Nat.eqb (List.length errs) 0) errs.

(* ================================================================== *)
(** ** Arithmetic notation for the embedded code *)

Declare Scope num_scope.
Delimit Scope num_scope with num.
Bind Scope num_scope with number.
Infix "+" := js_add : num_scope.
Infix "-" := js_sub : num_scope.
Infix "*" := js_mul : num_scope.
Infix "/" := js_div : num_scope.
Infix "<" := js_lt : num_scope.
Infix "<=" := js_le : num_scope.
Infix ">" := js_gt : num_scope.
Infix ">=" := js_ge : num_scope.

(* ================================================================== *)
(** ** brewing-analysis.ts *)

Definition getSulfateChlorideBalance (ratio : option number) : string :=
  match ratio with
  | None => "N/A (No Chloride)"
  | Some ratio =>
      if (ratio < lit 0.4)%num then "Very Malty"
      else if (ratio < lit 0.6)%num then "Malty"
      else if (ratio < lit 0.8)%num then "Slightly Malty"
      else if (ratio < lit 1.2)%num then "Balanced"
      else if (ratio < lit 2.0)%num then "Slightly Bitter"
      else if (ratio < lit 3.0)%num then "Bitter"
      else "Very Bitter"
  end.

Definition getColorRange (ra : number) : string :=
  if (ra < lit 0)%num then "2-8 EBC (Pilsner)"
  else if (ra < lit 50)%num then "8-20 EBC (Pale)"
  else if (ra < lit 100)%num then "20-35 EBC (Amber)"
  else if (ra < lit 150)%num then "35-50 EBC (Brown)"
  else if (ra < lit 200)%num then "50-60 EBC (Porter)"
  else if (ra < lit 250)%num then "60-70 EBC (Stout)"
  else "50-70 EBC (Porter/Stout)*".

(** The two copies of this function in the repository differ only in the
    spelling of the field names; the one used by calculator.ts is embedded. *)
Definition calculateBrewingAnalysis (profile : WaterProfile) : BrewingAnalysis :=
  let alkalinity := (HCO3 profile * (lit 50 / lit 61))%num in
  let residual_alkalinity :=
    (alkalinity - (Ca profile / lit 1.4 + Mg profile / lit 1.7))%num in
  let sulfate_chloride_ratio :=
    if (Cl profile > lit 0)%num then Some (SO4 profile / Cl profile)%num
    else None in
  let sulfate_chloride_balance :=
    getSulfateChlorideBalance sulfate_chloride_ratio in
  let total_hardness := (Ca profile + Mg profile)%num in
  let effective_hardness := (Ca profile / lit 1.4 + Mg profile / lit 1.7)%num in
  let color_range := getColorRange residual_alkalinity in
  {| alkalinity := (Math_round (alkalinity * lit 10) / lit 10)%num;
     residual_alkalinity :=
       (Math_round (residual_alkalinity * lit 10) / lit 10)%num;
     sulfate_chloride_ratio :=
       match sulfate_chloride_ratio with
       | Some r => Some (Math_round (r * lit 100) / lit 100)%num
       | None => None
       end;
     sulfate_chloride_balance := sulfate_chloride_balance;
     total_hardness := (Math_round (total_hardness * lit 10) / lit 10)%num;
     effective_hardness :=
       (Math_round (effective_hardness * lit 10) / lit 10)%num;
     color_range := color_range |}.

(* ================================================================== *)
(** ** optimizer-qp.ts *)

Record QuadprogMatrices : Type := mkQuadprogMatrices {
  H : list (list number);
  dvec : list number;
  Amat : list (list number);
  bvec : list number;
  A : list (list number);
  needed : list number;
  numSalts : nat;
  numIons : nat
}.

Definition ions : list Ion := [IonCa; IonMg; IonNa; IonSO4; IonCl; IonHCO3].

(** A matrix of [rows + 1] by [cols + 1] zeros, built entry by entry as the
    source builds its 1-indexed matrices. *)
Definition zero_matrix (rows cols : nat) : list (list number) :=
  for_le 0 rows
    (fun i m =>
       let m := arr_set [] m i [] in
       for_le 0 cols (fun j m => mat_set m i j (lit 0)) m)
    [].

Definition buildQuadprogMatrices (volumeLiters : number)
  (baseProfile targetProfile : WaterProfile) : QuadprogMatrices :=
  let salts : list (string * IonObject) :=
    [ ("gypsum", gypsum ION_CONTRIBUTIONS);
      ("cacl2", calciumChloride ION_CONTRIBUTIONS);
      ("epsom", epsomSalt ION_CONTRIBUTIONS);
      ("nacl", tableSalt ION_CONTRIBUTIONS);
      ("nahco3", bakingSoda ION_CONTRIBUTIONS) ] in
  let numSalts := List.length salts in
  let numIons := List.length ions in
  (* Calculate needed changes; index 0 unused *)
  let needed :=
    fold_left
      (fun needed ion =>
         needed ++ [(get_ion targetProfile ion - get_ion baseProfile ion)%num])
      ions [lit 0] in
  (* Build contribution matrix (ions x salts) *)
  let A := zero_matrix numIons numSalts in
  let A :=
    for_le 1 numIons
      (fun ionIdx A =>
         match arr_get ions (ionIdx - 1) with
         | Some ion =>
             for_le 1 numSalts
               (fun saltIdx A =>
                  match arr_get salts (saltIdx - 1) with
                  | Some salt =>
                      let contribution :=
                        js_or (ion_obj_get (snd salt) ion) (lit 0) in
                      if (contribution > lit 0)%num
                      then mat_set A ionIdx saltIdx
                             (contribution / volumeLiters)%num
                      else A
                  | None => A
                  end)
               A
         | None => A
         end)
      A in
  (* H = 2 * A^T * A *)
  let H := zero_matrix numSalts numSalts in
  let H :=
    for_le 1 numSalts
      (fun i H =>
         for_le 1 numSalts
           (fun j H =>
              let sum :=
                for_le 1 numIons
                  (fun k sum => (sum + mat_get A k i * mat_get A k j)%num)
                  (lit 0) in
              mat_set H i j (lit 2 * sum)%num)
           H)
      H in
  (* dvec = 2 * A^T * needed *)
  let dvec :=
    for_le 1 numSalts
      (fun i dvec =>
         let sum :=
           for_le 1 numIons
             (fun k sum =>
                (sum + mat_get A k i * to_number (arr_get needed k))%num)
             (lit 0) in
         arr_set NaN dvec i (lit 2 * sum)%num)
      [lit 0] in
  (* non-negativity constraints: identity matrix, zero right-hand side *)
  let numConstraints := numSalts in
  let Amat := zero_matrix numSalts numConstraints in
  let Amat := for_le 1 numSalts (fun i Amat => mat_set Amat i i (lit 1)) Amat in
  let bvec :=
    for_le 1 numConstraints (fun i bvec => arr_set NaN bvec i (lit 0)) [lit 0] in
  mkQuadprogMatrices H dvec Amat bvec A needed numSalts numIons.

(** The result of the [catch] branch. *)
Definition infeasibleResult (baseProfile targetProfile : WaterProfile)
  : OptimizationResult :=
  let emptyAdditions : SaltAdditions :=
    [ ("Gypsum (CaSO4)", lit 0);
      ("Calcium Chloride (CaCl2)", lit 0);
      ("Epsom Salt (MgSO4)", lit 0);
      ("Table Salt (NaCl)", lit 0);
      ("Baking Soda (NaHCO3)", lit 0) ] in
  {| saltAdditions := emptyAdditions;
     saltAdditionsDisplay := emptyAdditions;
     calculatedProfile := baseProfile;
     deviations :=
       {| Ca := (Ca targetProfile - Ca baseProfile)%num;
          Mg := (Mg targetProfile - Mg baseProfile)%num;
          Na := (Na targetProfile - Na baseProfile)%num;
          SO4 := (SO4 targetProfile - SO4 baseProfile)%num;
          Cl := (Cl targetProfile - Cl baseProfile)%num;
          HCO3 := (HCO3 targetProfile - HCO3 baseProfile)%num |};
     feasible := false;
     iterations := None |}.

(** The salts of the achieved-profile loop, by display name. *)
Definition profile_salts : list (string * IonObject) :=
  [ ("Gypsum (CaSO4)", gypsum ION_CONTRIBUTIONS);
    ("Calcium Chloride (CaCl2)", calciumChloride ION_CONTRIBUTIONS);
    ("Epsom Salt (MgSO4)", epsomSalt ION_CONTRIBUTIONS);
    ("Table Salt (NaCl)", tableSalt ION_CONTRIBUTIONS);
    ("Baking Soda (NaHCO3)", bakingSoda ION_CONTRIBUTIONS) ].

(** The callback of [salts.forEach] in the achieved-profile computation:
    the contributions of one salt are added to the profile. *)
Definition applySalt (volumeLiters : number) (saltAdditionsPrecise : SaltAdditions)
  (calculatedProfile : WaterProfile) (salt : string * IonObject) : WaterProfile :=
  let amount := to_number (obj_get saltAdditionsPrecise (fst salt)) in
  if (amount > lit 0)%num then
    fold_left
      (fun (calculatedProfile : WaterProfile) (entry : Ion * number) =>
         let (ionKey, contribution) := entry in
         if (contribution > lit 0)%num then
           set_ion calculatedProfile ionKey
             (get_ion calculatedProfile ionKey
              + (contribution * amount) / volumeLiters)%num
         else calculatedProfile)
      (snd salt) calculatedProfile
  else calculatedProfile.

(** "Calculate achieved profile using PRECISE values": the block of
    [optimizeWithQP] that starts from a copy of the base profile. *)
Definition achievedProfile (volumeLiters : number) (baseProfile : WaterProfile)
  (saltAdditionsPrecise : SaltAdditions) : WaterProfile :=
  let calculatedProfile : WaterProfile := baseProfile in
  let calculatedProfile :=
    fold_left (applySalt volumeLiters saltAdditionsPrecise)
      profile_salts calculatedProfile in
  (* Keep full precision *)
  fold_left
    (fun (calculatedProfile : WaterProfile) ion =>
       set_ion calculatedProfile ion (get_ion calculatedProfile ion))
    ions calculatedProfile.

(** The part of the [try] block after the solver has returned a solution. *)
Definition mapSolution (volumeLiters : number)
  (baseProfile targetProfile : WaterProfile) (solution : list number)
  : OptimizationResult :=
  (* Extract precise salt additions (1-indexed) - NO ROUNDING *)
  let saltAdditionsPrecise : SaltAdditions :=
    [ ("Gypsum (CaSO4)", js_or (arr_get solution 1) (lit 0));
      ("Calcium Chloride (CaCl2)", js_or (arr_get solution 2) (lit 0));
      ("Epsom Salt (MgSO4)", js_or (arr_get solution 3) (lit 0));
      ("Table Salt (NaCl)", js_or (arr_get solution 4) (lit 0));
      ("Baking Soda (NaHCO3)", js_or (arr_get solution 5) (lit 0)) ] in
  let precise (k : string) : number := to_number (obj_get saltAdditionsPrecise k) in
  (* Create rounded versions for display *)
  let saltAdditionsDisplay : SaltAdditions :=
    [ ("Gypsum (CaSO4)",
       (Math_round (precise "Gypsum (CaSO4)" * lit 10) / lit 10)%num);
      ("Calcium Chloride (CaCl2)",
       (Math_round (precise "Calcium Chloride (CaCl2)" * lit 10) / lit 10)%num);
      ("Epsom Salt (MgSO4)",
       (Math_round (precise "Epsom Salt (MgSO4)" * lit 10) / lit 10)%num);
      ("Table Salt (NaCl)",
       (Math_round (precise "Table Salt (NaCl)" * lit 10) / lit 10)%num);
      ("Baking Soda (NaHCO3)",
       (Math_round (precise "Baking Soda (NaHCO3)" * lit 10) / lit 10)%num) ] in
  (* Calculate achieved profile using PRECISE values *)
  let calculatedProfile :=
    achievedProfile volumeLiters baseProfile saltAdditionsPrecise in
  (* Calculate deviations *)
  let deviations : WaterProfile :=
    {| Ca := (Ca calculatedProfile - Ca targetProfile)%num;
       Mg := (Mg calculatedProfile - Mg targetProfile)%num;
       Na := (Na calculatedProfile - Na targetProfile)%num;
       SO4 := (SO4 calculatedProfile - SO4 targetProfile)%num;
       Cl := (Cl calculatedProfile - Cl targetProfile)%num;
       HCO3 := (HCO3 calculatedProfile - HCO3 targetProfile)%num |} in
  {| saltAdditions := saltAdditionsPrecise;
     saltAdditionsDisplay := saltAdditionsDisplay;
     calculatedProfile := calculatedProfile;
     deviations := deviations;
     feasible := true;
     iterations := None |}.

(** [s || 'No solution found'] on an optional string: the empty string is
    falsy. *)
Definition message_or (s : option string) (d : string) : string :=
  match s with
  | Some EmptyString | None => d
  | Some m => m
  end.

Definition optimizeWithQP (env : Env) (volumeLiters : number)
  (baseProfile targetProfile : WaterProfile) : M OptimizationResult :=
  try_catch
    (solveQP <- lift (import_quadprog env) ;;
     let m := buildQuadprogMatrices volumeLiters baseProfile targetProfile in
     (* meq = 0 means all constraints are inequalities *)
     result <- call_solveQP solveQP (H m) (dvec m) (Amat m) (bvec m) 0 ;;
     match result with
     | None =>
         throw (Error ("QP solver failed: " ++ "No solution found")%string)
     | Some r =>
         match solution r with
         | None =>
             throw (Error ("QP solver failed: "
                             ++ message_or (message r) "No solution found")%string)
         | Some sol =>
             ret (mapSolution volumeLiters baseProfile targetProfile sol)
         end
     end)%js
    (fun error =>
       (emit (ConsoleError "QP optimization failed:" error) ;;;
        ret (infeasibleResult baseProfile targetProfile))%js).

(* ================================================================== *)
(** ** optimizer.ts *)

Definition optimizeSaltAdditions (env : Env) (volumeLiters : number)
  (baseProfile targetProfile : WaterProfile) : M OptimizationResult :=
  (result <- optimizeWithQP env volumeLiters baseProfile targetProfile ;;
   if negb (feasible result) then
     throw (Error "Unable to find a feasible solution for the target water profile")
   else
     ret {| saltAdditions := saltAdditions result;
            saltAdditionsDisplay := saltAdditionsDisplay result;
            calculatedProfile := calculatedProfile result;
            deviations := deviations result;
            feasible := feasible result;
            iterations := Some 1%nat |})%js.

(** Amounts below 0.1 g become 0, the others are rounded to one decimal:
    a copy of the object is updated key by key. *)
Definition roundSmallAdditions (saltAdditions : SaltAdditions) : SaltAdditions :=
  let rounded : SaltAdditions := saltAdditions in
  let threshold := lit 0.1 in
  fold_left
    (fun (rounded : SaltAdditions) (salt : string) =>
       let saltKey := salt in
       if (to_number (obj_get rounded saltKey) < threshold)%num then
         obj_set rounded saltKey (lit 0)
       else
         (* Round to 1 decimal place *)
         obj_set rounded saltKey
           (Math_round (to_number (obj_get rounded saltKey) * lit 10) / lit 10)%num)
    (Object_keys rounded) rounded.

(* ================================================================== *)
(** ** calculator.ts *)

Definition createEmptyAdditions : SaltAdditions :=
  [ ("Gypsum (CaSO4)", lit 0);
    ("Calcium Chloride (CaCl2)", lit 0);
    ("Epsom Salt (MgSO4)", lit 0);
    ("Table Salt (NaCl)", lit 0);
    ("Baking Soda (NaHCO3)", lit 0) ].

Definition createZeroDeviations : WaterProfile :=
  {| Ca := lit 0; Mg := lit 0; Na := lit 0;
     SO4 := lit 0; Cl := lit 0; HCO3 := lit 0 |}.

Definition calculateWaterAdditions (env : Env) (input : CalculationInput)
  : M CalculationResult :=
  let volume_liters := volume_liters input in
  let base_profile := base_profile input in
  let target_profile := target_profile input in
  try_catch
    ((* Step 1: Validate inputs *)
     let validation := validateInputs volume_liters base_profile target_profile in
     if negb (valid validation) then
       ret {| success := false;
              error := Some ("Input validation failed: "
                               ++ join ", " (errors validation))%string;
              additions := createEmptyAdditions;
              calculated_profile := base_profile;
              result_deviations := createZeroDeviations;
              total_salt_weight := lit 0;
              brewing_analysis := calculateBrewingAnalysis base_profile |}
     else
       (* Step 2: Run optimization algorithm *)
       optimizationResult <-
         optimizeSaltAdditions env volume_liters base_profile target_profile ;;
       (* Step 3: Clean up display additions (round small amounts to 0) *)
       let displayAdditions :=
         roundSmallAdditions (saltAdditionsDisplay optimizationResult) in
       (* Step 4: Round the calculated profile for display *)
       let cp := calculatedProfile optimizationResult in
       let displayProfile : WaterProfile :=
         {| Ca := (Math_round (Ca cp * lit 10) / lit 10)%num;
            Mg := (Math_round (Mg cp * lit 10) / lit 10)%num;
            Na := (Math_round (Na cp * lit 10) / lit 10)%num;
            SO4 := (Math_round (SO4 cp * lit 10) / lit 10)%num;
            Cl := (Math_round (Cl cp * lit 10) / lit 10)%num;
            HCO3 := (Math_round (HCO3 cp * lit 10) / lit 10)%num |} in
       (* Step 5: Round deviations for display *)
       let dv := deviations optimizationResult in
       let displayDeviations : WaterProfile :=
         {| Ca := (Math_round (Ca dv * lit 10) / lit 10)%num;
            Mg := (Math_round (Mg dv * lit 10) / lit 10)%num;
            Na := (Math_round (Na dv * lit 10) / lit 10)%num;
            SO4 := (Math_round (SO4 dv * lit 10) / lit 10)%num;
            Cl := (Math_round (Cl dv * lit 10) / lit 10)%num;
            HCO3 := (Math_round (HCO3 dv * lit 10) / lit 10)%num |} in
       (* Step 6: Calculate total salt weight for display *)
       let totalSaltWeight :=
         fold_left (fun sum weight => (sum + weight)%num)
           (map snd displayAdditions) (lit 0) in
       (* Step 7: Calculate brewing-specific analysis *)
       let brewingAnalysis := calculateBrewingAnalysis displayProfile in
       ret {| success := true;
              error := None;
              additions := displayAdditions;
              calculated_profile := displayProfile;
              result_deviations := displayDeviations;
              total_salt_weight :=
                (Math_round (totalSaltWeight * lit 10) / lit 10)%num;
              brewing_analysis := brewingAnalysis |})%js
    (fun error =>
       (emit (ConsoleError "Water chemistry calculation error:" error) ;;;
        let errorMessage := error_message error in
        ret {| success := false;
               error := Some ("Calculation error: " ++ errorMessage)%string;
               additions := createEmptyAdditions;
               calculated_profile := base_profile;
               result_deviations := createZeroDeviations;
               total_salt_weight := lit 0;
               brewing_analysis := calculateBrewingAnalysis base_profile |})%js).

(* ================================================================== *)
(** ** Vocabulary of the specification *)

(** What the external solver hands back on the problem built for a run:
    [Some sol] when the import succeeds and the solver returns a result
    that carries a solution, [None] when it fails in any way (the import or
    the solver throws, the result is missing, or it has no solution). *)
Definition solver_solution (env : Env) (volumeLiters : number)
  (baseProfile targetProfile : WaterProfile) : option (list number) :=
  match import_quadprog env with
  | Normal solveQP =>
      let m := buildQuadprogMatrices volumeLiters baseProfile targetProfile in
      match solveQP (H m) (dvec m) (Amat m) (bvec m) 0%nat with
      | Normal (Some r) => solution r
      | _ => None
      end
  | Thrown _ => None
  end.

(** The names of the catalog additives, in catalog order. *)
Definition salt_names : list string := map name BREWING_SALTS.

(** Every entry of a quantity vector is exactly zero. *)
Definition all_zero (s : SaltAdditions) : Prop :=
  Forall (fun entry => snd entry = lit 0) s.

(** [isNaN(a)] *)
Definition isNaN (a : number) : bool :=
  match a with NaN => true | _ => false end.

(** Rounding to one decimal place. *)
Definition round1 (x : number) : number :=
  (Math_round (x * lit 10) / lit 10)%num.

(** The display policy in the words of the specification: round to one
    decimal place, and floor a rounded quantity below 0.1 to exactly 0. *)
Definition display_policy (x : number) : number :=
  let r := round1 x in
  if (r < lit 0.1)%num then lit 0 else r.

(** What [roundSmallAdditions] does to one amount. *)
Definition small_to_zero (value : number) : number :=
  if (value < lit 0.1)%num then lit 0 else round1 value.

(** The update of one key by a function of its current value. *)
Definition obj_touch (f : number -> number) (o : JsObject) (k : string)
  : JsObject :=
  obj_set o k (f (to_number (obj_get o k))).

(** The rational [k / 10]. *)
Definition tenths (k : Z) : Qc := (Z2Qc k / Q2Qc 10)%Qc.

(** Per-unit contribution of a catalog additive to an ion, zero if the
    additive does not contribute that ion. *)
Definition per_unit (s : Salt) (i : Ion) : number :=
  match ion_obj_get (contributions s) i with
  | Some c => c
  | None => lit 0
  end.

(** The contribution model in the words of the specification:
    base + sum over additives of (quantity x per-unit contribution / volume). *)
Definition contribution_model (base : WaterProfile) (quantities : SaltAdditions)
  (volume : number) (i : Ion) : number :=
  fold_left
    (fun acc (s : Salt) =>
       (acc + (to_number (obj_get quantities (name s)) * per_unit s i) / volume)%num)
    BREWING_SALTS (get_ion base i).

(** The contribution model restricted to what the achieved-profile loop
    applies: base + sum, over the additives that contribute the ion and
    whose quantity is strictly positive, of
    (quantity x per-unit contribution / volume). *)
Definition applied_contribution_model (base : WaterProfile)
  (quantities : SaltAdditions) (volume : number) (i : Ion) : number :=
  fold_left
    (fun acc (s : Salt) =>
       let quantity := to_number (obj_get quantities (name s)) in
       match ion_obj_get (contributions s) i with
       | Some c =>
           if (quantity > lit 0)%num then (acc + (quantity * c) / volume)%num
           else acc
       | None => acc
       end)
    BREWING_SALTS (get_ion base i).

(** An entry of the contribution matrix in the words of the
    specification: the catalog constant divided by the volume when the
    additive contributes the ion, zero otherwise. *)
Definition contribution_entry (volume : number) (s : Salt) (i : Ion) : number :=
  match ion_obj_get (contributions s) i with
  | Some c => (c / volume)%num
  | None => lit 0
  end.

(** The contribution matrix M, ions by additives, laid out 1-indexed with
    an unused row and column of zeros as the source lays its matrices out. *)
Definition M_spec (volume : number) : list (list number) :=
  repeat (lit 0) 6
    :: map (fun i =>
              lit 0 :: map (fun s => contribution_entry volume s i) BREWING_SALTS)
         ions.

(** An entry of the product of the transpose of M with M. *)
Definition gram (volume : number) (s t : Salt) : number :=
  fold_left
    (fun sum i =>
       (sum + contribution_entry volume s i * contribution_entry volume t i)%num)
    ions (lit 0).

(** The matrix 2 MtM, additives by additives, 1-indexed. *)
Definition H_spec (volume : number) : list (list number) :=
  repeat (lit 0) 6
    :: map (fun s =>
              lit 0 :: map (fun t => (lit 2 * gram volume s t)%num) BREWING_SALTS)
         BREWING_SALTS.


(** The quadratic form xt H x of a real vector [x], 1-indexed like the
    vectors exchanged with the solver ([x] is read as zero past its end). *)
Definition quad_form (Hm : list (list number)) (x : list Qc) : number :=
  fold_left
    (fun acc i =>
       fold_left
         (fun acc j =>
            (acc + (Fin (nth i x (Q2Qc 0)) * mat_get Hm i j)
                   * Fin (nth j x (Q2Qc 0)))%num)
         (seq 1 5) acc)
    (seq 1 5) (lit 0).

(** The catalog additive of the 1-indexed column [i]. *)
Definition salt_at (i : nat) : Salt :=
  nth (i - 1) BREWING_SALTS (mkSalt "" NaN [] NaN).

(** The same sums over the rationals: the Gram entry of two columns and
    the quadratic form of 2 MtM, for columns [a 1 .. a 5]. *)
Definition gram_q (a b : Ion -> Qc) : Qc :=
  fold_left (fun sum i => (sum + a i * b i)%Qc) ions (Q2Qc 0).

Definition quad_q (a : nat -> Ion -> Qc) (x : nat -> Qc) : Qc :=
  fold_left
    (fun acc i =>
       fold_left
         (fun acc j => (acc + (x i * (Q2Qc 2 * gram_q (a i) (a j))) * x j)%Qc)
         (seq 1 5) acc)
    (seq 1 5) (Q2Qc 0).

(** The solver kept its contract: the five components of the 1-indexed
    solution that are present are finite and not negative. *)
Definition component_ok (c : option number) : bool :=
  match c with
  | Some x => isFinite x && js_le (lit 0) x
  | None => true
  end.

Definition nonneg_solution (sol : list number) : bool :=
  forallb (fun i => component_ok (arr_get sol i)) [1; 2; 3; 4; 5]%nat.

(** The message that names the volume as the violated field. *)
Definition volume_error (volume : number) : string :=
  if isFinite volume then "volume must be positive"
  else "volume must be a valid number".

(** The message of the error [optimizeSaltAdditions] throws. *)
Definition infeasible_message : string :=
  "Unable to find a feasible solution for the target water profile".

(** Number of solver invocations recorded in a log. *)
Definition solver_calls (log : list Event) : nat :=
  List.length
    (filter (fun ev => match ev with SolveQPCalled => true | _ => false end) log).

(** *** Concrete runs

    The scenario of the specification (20 litres, a soft base water and a
    pale-ale target) and a few solvers standing for the external library. *)

Definition scenario_base : WaterProfile :=
  mkWaterProfile (lit 22) (lit 2.7) (lit 12) (lit 6) (lit 14) (lit 50).

Definition scenario_target : WaterProfile :=
  mkWaterProfile (lit 48) (lit 2.7) (lit 12) (lit 60) (lit 40) (lit 50).

Definition scenario_input : CalculationInput :=
  mkCalculationInput (lit 20) scenario_base scenario_target.

(** A solver that always answers with the 1-indexed solution [sol]. *)
Definition env_returning (sol : list number) : Env :=
  mkEnv (Normal (fun _ _ _ _ _ =>
                   Normal (Some (mkQPResult (Some sol) (Some ""%string))))).

(** A solver that returns [null]. *)
Definition env_no_solution : Env :=
  mkEnv (Normal (fun _ _ _ _ _ => Normal None)).

(** An answer with gypsum, calcium chloride and a trace of table salt. *)
Definition scenario_solution : list number :=
  [lit 0; lit 1.93; lit 1.07; lit 0; lit 0.04; lit 0].

(** An answer with floating-point noise below zero in its first component
    and a plainly negative second component. *)
Definition negative_solution : list number :=
  [lit 0; lit (-0.0000000001); lit (-5); lit 0; lit 0.04; lit 0].

(** Decimal rendering of a quantity vector and of a profile. *)
Definition shown (s : SaltAdditions) : list (string * string) :=
  map (fun e => (fst e, show_number (snd e))) s.

Definition shown_profile (p : WaterProfile) : list string :=
  map (fun i => show_number (get_ion p i)) ions.

(* ================================================================== *)
(** ** calculator.ts: the helpers beside [calculateWaterAdditions] *)

(** [calculateFinalProfileFromAdditions], with its own copy of the
    contribution constants. *)
Definition calculateFinalProfileFromAdditions (baseProfile : WaterProfile)
  (saltAdditions : SaltAdditions) (volumeLiters : number) : WaterProfile :=
  let gypsum_Ca := lit 232.8 in
  let gypsum_SO4 := lit 557.9 in
  let calciumChloride_Ca := lit 272.6 in
  let calciumChloride_Cl := lit 482.3 in
  let epsomSalt_Mg := lit 98.6 in
  let epsomSalt_SO4 := lit 389.6 in
  let tableSalt_Na := lit 393.4 in
  let tableSalt_Cl := lit 606.6 in
  let bakingSoda_Na := lit 273.6 in
  let bakingSoda_HCO3 := lit 726.4 in
  let gypsum := to_number (obj_get saltAdditions "Gypsum (CaSO4)") in
  let cacl2 := to_number (obj_get saltAdditions "Calcium Chloride (CaCl2)") in
  let epsom := to_number (obj_get saltAdditions "Epsom Salt (MgSO4)") in
  let nacl := to_number (obj_get saltAdditions "Table Salt (NaCl)") in
  let nahco3 := to_number (obj_get saltAdditions "Baking Soda (NaHCO3)") in
  let contributions_Ca :=
    ((gypsum * gypsum_Ca + cacl2 * calciumChloride_Ca) / volumeLiters)%num in
  let contributions_Mg := ((epsom * epsomSalt_Mg) / volumeLiters)%num in
  let contributions_Na :=
    ((nacl * tableSalt_Na + nahco3 * bakingSoda_Na) / volumeLiters)%num in
  let contributions_SO4 :=
    ((gypsum * gypsum_SO4 + epsom * epsomSalt_SO4) / volumeLiters)%num in
  let contributions_Cl :=
    ((cacl2 * calciumChloride_Cl + nacl * tableSalt_Cl) / volumeLiters)%num in
  let contributions_HCO3 := ((nahco3 * bakingSoda_HCO3) / volumeLiters)%num in
  {| Ca := (Math_round ((Ca baseProfile + contributions_Ca) * lit 10) / lit 10)%num;
     Mg := (Math_round ((Mg baseProfile + contributions_Mg) * lit 10) / lit 10)%num;
     Na := (Math_round ((Na baseProfile + contributions_Na) * lit 10) / lit 10)%num;
     SO4 := (Math_round ((SO4 baseProfile + contributions_SO4) * lit 10) / lit 10)%num;
     Cl := (Math_round ((Cl baseProfile + contributions_Cl) * lit 10) / lit 10)%num;
     HCO3 :=
       (Math_round ((HCO3 baseProfile + contributions_HCO3) * lit 10) / lit 10)%num |}.

Definition calculateDeviations (targetProfile calculatedProfile : WaterProfile)
  : WaterProfile :=
  {| Ca := (Math_round ((Ca calculatedProfile - Ca targetProfile) * lit 10) / lit 10)%num;
     Mg := (Math_round ((Mg calculatedProfile - Mg targetProfile) * lit 10) / lit 10)%num;
     Na := (Math_round ((Na calculatedProfile - Na targetProfile) * lit 10) / lit 10)%num;
     SO4 :=
       (Math_round ((SO4 calculatedProfile - SO4 targetProfile) * lit 10) / lit 10)%num;
     Cl := (Math_round ((Cl calculatedProfile - Cl targetProfile) * lit 10) / lit 10)%num;
     HCO3 :=
       (Math_round ((HCO3 calculatedProfile - HCO3 targetProfile) * lit 10)
        / lit 10)%num |}.

(** *** [validateMCPInput]: untyped arguments

    The argument is [any]; the values a caller can pass are modelled by
    [JsValue] (functions and symbols are left out, an array is an object). *)

Inductive JsValue : Type :=
| JUndefined
| JNull
| JBoolean (b : bool)
| JNumber (n : number)
| JString (s : string)
| JObject (props : list (string * JsValue)).

(** [typeof v] *)
Definition typeof (v : JsValue) : string :=
  match v with
  | JUndefined => "undefined"
  | JNull => "object"
  | JBoolean _ => "boolean"
  | JNumber _ => "number"
  | JString _ => "string"
  | JObject _ => "object"
  end.

(** Truthiness of a value, as [!v] tests it. *)
Definition js_truthy (v : JsValue) : bool :=
  match v with
  | JUndefined | JNull => false
  | JBoolean b => b
  | JNumber n => truthy n
  | JString s => negb (String.eqb s "")
  | JObject _ => true
  end.

Fixpoint props_get (props : list (string * JsValue)) (k : string) : JsValue :=
  match props with
  | [] => JUndefined
  | (k', v) :: rest => if String.eqb k' k then v else props_get rest k
  end.

(** [v.k] and [v[k]] for the property names this code reads: a TypeError
    on [undefined] and [null], [undefined] on the other primitives. *)
Definition get_prop (v : JsValue) (k : string) : completion JsValue :=
  match v with
  | JUndefined | JNull => Thrown (Error "TypeError")
  | JObject props => Normal (props_get props k)
  | _ => Normal JUndefined
  end.

Definition bindc {A B : Type} (c : completion A) (k : A -> completion B)
  : completion B :=
  match c with
  | Normal a => k a
  | Thrown e => Thrown e
  end.

(** The result [{ valid, error? }] of [validateMCPInput]. *)
Record MCPValidation : Type := mkMCPValidation {
  mcp_valid : bool;
  mcp_error : option string
}.

(** The [for (const ion of requiredIons)] loop of [validateMCPInput]:
    [Some r] when the loop returns [r] early. *)
Fixpoint check_ions (base_profile target_profile : JsValue) (ionsLeft : list Ion)
  : completion (option MCPValidation) :=
  match ionsLeft with
  | [] => Normal None
  | ion :: rest =>
      bindc (get_prop base_profile (ion_name ion)) (fun b =>
      if negb (String.eqb (typeof b) "number") then
        Normal (Some (mkMCPValidation false
                        (Some ("base_profile." ++ ion_name ion
                                 ++ " is required and must be a number")%string)))
      else
        bindc (get_prop target_profile (ion_name ion)) (fun t =>
        if negb (String.eqb (typeof t) "number") then
          Normal (Some (mkMCPValidation false
                          (Some ("target_profile." ++ ion_name ion
                                   ++ " is required and must be a number")%string)))
        else check_ions base_profile target_profile rest))
  end.

Definition validateMCPInput (args : JsValue) : completion MCPValidation :=
  bindc (get_prop args "volume_liters") (fun volume_liters =>
  if negb (js_truthy volume_liters)
     || negb (String.eqb (typeof volume_liters) "number") then
    Normal (mkMCPValidation false
              (Some "volume_liters is required and must be a number"))
  else
    bindc (get_prop args "base_profile") (fun base_profile =>
    if negb (js_truthy base_profile)
       || negb (String.eqb (typeof base_profile) "object") then
      Normal (mkMCPValidation false
                (Some "base_profile is required and must be an object"))
    else
      bindc (get_prop args "target_profile") (fun target_profile =>
      if negb (js_truthy target_profile)
         || negb (String.eqb (typeof target_profile) "object") then
        Normal (mkMCPValidation false
                  (Some "target_profile is required and must be an object"))
      else
        bindc (check_ions base_profile target_profile requiredIons) (fun early =>
        match early with
        | Some r => Normal r
        | None => Normal (mkMCPValidation true None)
        end)))).

(** The object a typed caller passes for a [WaterProfile] and for a
    [CalculationInput]. *)
Definition profile_value (p : WaterProfile) : JsValue :=
  JObject (map (fun i => (ion_name i, JNumber (get_ion p i))) requiredIons).

Definition input_value (input : CalculationInput) : JsValue :=
  JObject [ ("volume_liters", JNumber (volume_liters input));
            ("base_profile", profile_value (base_profile input));
            ("target_profile", profile_value (target_profile input)) ].

(** The arguments carry the typed input: a number for the volume and for
    each ion of the two profiles. *)
Definition carries (args : JsValue) (input : CalculationInput) : Prop :=
  get_prop args "volume_liters" = Normal (JNumber (volume_liters input))
  /\ exists b t,
      get_prop args "base_profile" = Normal b
      /\ get_prop args "target_profile" = Normal t
      /\ forall i,
          get_prop b (ion_name i) = Normal (JNumber (get_ion (base_profile input) i))
          /\ get_prop t (ion_name i)
             = Normal (JNumber (get_ion (target_profile input) i)).

(* ================================================================== *)
(** ** Further vocabulary *)

(** The value of an ion is a finite number inside its validation range. *)
Definition ion_in_range (i : Ion) (v : number) : bool :=
  isFinite v
  && js_le (min (VALIDATION_RANGES_ions i)) v
  && js_le v (max (VALIDATION_RANGES_ions i)).

Definition profile_in_range (p : WaterProfile) : bool :=
  forallb (fun i => ion_in_range i (get_ion p i)) requiredIons.

Definition volume_in_range (v : number) : bool :=
  isFinite v
  && js_le (min VALIDATION_RANGES_volume) v
  && js_le v (max VALIDATION_RANGES_volume).

(** The contribution of a set of amounts to an ion before the division by
    the volume: the sum, over the catalog additives that contribute the
    ion, of amount times catalog constant. *)
Definition combined_contribution (quantities : SaltAdditions) (i : Ion)
  : number :=
  match
    flat_map
      (fun s : Salt =>
         match ion_obj_get (contributions s) i with
         | Some c => [(to_number (obj_get quantities (name s)) * c)%num]
         | None => []
         end)
      BREWING_SALTS
  with
  | [] => lit 0
  | term :: terms => fold_left js_add terms term
  end.

(** An amount as the report shows it: a whole, non-negative number of
    tenths, or [Infinity]. *)
Definition display_amount (v : number) : Prop :=
  v = PInf \/ exists k : Z, (0 <= k)%Z /\ v = Fin (tenths k).

(** Every concentration of the profile is a finite number. *)
Definition profile_finite (p : WaterProfile) : bool :=
  forallb (fun i => isFinite (get_ion p i)) requiredIons.

(** The five components of a solution that are present are finite. *)
Definition finite_solution (sol : list number) : bool :=
  forallb (fun i => match arr_get sol i with
                    | Some x => isFinite x
                    | None => true
                    end) [1; 2; 3; 4; 5]%nat.

(** No component of a solution is positive. *)
Definition no_positive_component (sol : list number) : bool :=
  forallb (fun i => negb (js_gt (to_number (arr_get sol i)) (lit 0)))
    [1; 2; 3; 4; 5]%nat.

(** The rational value of a finite number. *)
Definition to_Qc (a : number) : Qc :=
  match a with Fin q => q | _ => Q2Qc 0 end.

(** The import of the solver library succeeded. *)
Definition import_ok (env : Env) : bool :=
  match import_quadprog env with Normal _ => true | Thrown _ => false end.

Definition is_some {T : Type} (o : option T) : bool :=
  match o with Some _ => true | None => false end.

(** *** The quadratic program as the solver reads it

    Vectors are 1-indexed; a real vector [x] is read as zero past its end. *)

(** The needed changes, target minus base, behind the unused index 0. *)
Definition needed_spec (base target : WaterProfile) : list number :=
  lit 0 :: map (fun i => (get_ion target i - get_ion base i)%num) ions.

(** An entry of 2 Mt needed. *)
Definition dvec_entry (volume : number) (base target : WaterProfile) (s : Salt)
  : number :=
  (lit 2
   * fold_left
       (fun sum i =>
          (sum + contribution_entry volume s i
                 * (get_ion target i - get_ion base i))%num)
       ions (lit 0))%num.

Definition dvec_spec (volume : number) (base target : WaterProfile)
  : list number :=
  lit 0 :: map (dvec_entry volume base target) BREWING_SALTS.

(** The left-hand side of constraint [j]: column [j] of [Amat] against x. *)
Definition constraint_lhs (m : QuadprogMatrices) (x : list Qc) (j : nat) : number :=
  fold_left
    (fun acc i => (acc + mat_get (Amat m) i j * Fin (nth i x (Q2Qc 0)))%num)
    (seq 1 5) (lit 0).

(** x satisfies the constraints Amat^T x >= bvec handed to the solver. *)
Definition constraints_hold (m : QuadprogMatrices) (x : list Qc) : bool :=
  forallb
    (fun j => js_ge (constraint_lhs m x j) (to_number (arr_get (bvec m) j)))
    (seq 1 5).

(** What quadprog minimises: 1/2 xt H x - dvec^T x. *)
Definition qp_objective (m : QuadprogMatrices) (x : list Qc) : number :=
  (lit 0.5 * quad_form (H m) x
   - fold_left
       (fun acc i =>
          (acc + to_number (arr_get (dvec m) i) * Fin (nth i x (Q2Qc 0)))%num)
       (seq 1 5) (lit 0))%num.

(** Row [k] of A x - needed. *)
Definition residual (m : QuadprogMatrices) (x : list Qc) (k : nat) : number :=
  (fold_left
     (fun acc i => (acc + mat_get (A m) k i * Fin (nth i x (Q2Qc 0)))%num)
     (seq 1 5) (lit 0)
   - to_number (arr_get (needed m) k))%num.

(** The squared norms of A x - needed and of needed. *)
Definition squared_error (m : QuadprogMatrices) (x : list Qc) : number :=
  fold_left (fun acc k => (acc + residual m x k * residual m x k)%num)
    (seq 1 6) (lit 0).

Definition needed_norm (m : QuadprogMatrices) : number :=
  fold_left
    (fun acc k =>
       (acc + to_number (arr_get (needed m) k) * to_number (arr_get (needed m) k))%num)
    (seq 1 6) (lit 0).

(** The ion of the 1-indexed row [k]. *)
Definition ion_at (k : nat) : Ion := nth (k - 1) ions IonCa.

(* ================================================================== *)
(** * Properties *)

(** ** The embedding on the scenario *)

Example scenario_needed :
  map show_number
    (needed (buildQuadprogMatrices (lit 20) scenario_base scenario_target))
  = ["0"; "26"; "0"; "0"; "54"; "26"; "0"].
Proof. vm_compute. reflexivity. Qed.

Example scenario_gypsum_column :
  map (fun k => show_number
                  (mat_get (A (buildQuadprogMatrices (lit 20) scenario_base
                                 scenario_target)) k 1))
    [1; 2; 3; 4; 5; 6]%nat
  = ["11.64"; "0"; "0"; "27.895"; "0"; "0"].
Proof. vm_compute. reflexivity. Qed.

Example scenario_optimizer_run :
  exists r,
    optimizeWithQP (env_returning scenario_solution) (lit 20) scenario_base
      scenario_target [] = (Normal r, [SolveQPCalled])
    /\ shown (saltAdditions r)
       = [("Gypsum (CaSO4)", "1.93"); ("Calcium Chloride (CaCl2)", "1.07");
          ("Epsom Salt (MgSO4)", "0"); ("Table Salt (NaCl)", "0.04");
          ("Baking Soda (NaHCO3)", "0")]
    /\ shown (saltAdditionsDisplay r)
       = [("Gypsum (CaSO4)", "1.9"); ("Calcium Chloride (CaCl2)", "1.1");
          ("Epsom Salt (MgSO4)", "0"); ("Table Salt (NaCl)", "0");
          ("Baking Soda (NaHCO3)", "0")]
    /\ shown_profile (calculatedProfile r)
       = ["59.0493"; "2.7"; "12.7868"; "59.83735"; "41.01625"; "50"].
Proof. eexists. repeat split; vm_compute; reflexivity. Qed.

Example scenario_calculator_run :
  exists cr,
    calculateWaterAdditions (env_returning scenario_solution) scenario_input []
    = (Normal cr, [SolveQPCalled])
    /\ success cr = true
    /\ shown (additions cr)
       = [("Gypsum (CaSO4)", "1.9"); ("Calcium Chloride (CaCl2)", "1.1");
          ("Epsom Salt (MgSO4)", "0"); ("Table Salt (NaCl)", "0");
          ("Baking Soda (NaHCO3)", "0")]
    /\ shown_profile (calculated_profile cr)
       = ["59"; "2.7"; "12.8"; "59.8"; "41"; "50"]
    /\ show_number (total_salt_weight cr) = "3".
Proof. eexists. repeat split; vm_compute; reflexivity. Qed.

Example rejected_volume_messages :
  errors (validateInputs (lit 0) scenario_base scenario_target)
  = ["volume must be positive"]
  /\ errors (validateInputs PInf scenario_base scenario_target)
     = ["volume must be a valid number"]
  /\ errors (validateInputs (lit 0.05) scenario_base scenario_target)
     = ["volume must be between 0.1 and 1000 liters"].
Proof. repeat split; vm_compute; reflexivity. Qed.

(** Symbolic evaluation stops at the builder and the mapper. *)
Arguments buildQuadprogMatrices : simpl never.
Arguments mapSolution : simpl never.
Arguments achievedProfile : simpl never.
Arguments calculateBrewingAnalysis : simpl never.
Arguments validateInputs : simpl never.

(** ** The effect monad *)

Lemma bind_normal {A B : Type} (m : M A) (k : A -> M B) log a log' :
  m log = (Normal a, log') -> bind m k log = k a log'.
Proof. intros E. unfold bind. now rewrite E. Qed.

Lemma bind_thrown {A B : Type} (m : M A) (k : A -> M B) log e log' :
  m log = (Thrown e, log') -> bind m k log = (Thrown e, log').
Proof. intros E. unfold bind. now rewrite E. Qed.

(** ** The infeasible fallback of [optimizeWithQP] *)

Lemma optimizeWithQP_on_failure env vol base target log :
  solver_solution env vol base target = None ->
  exists e log',
    optimizeWithQP env vol base target log
    = (Normal (infeasibleResult base target),
       log' ++ [ConsoleError "QP optimization failed:" e]).
Proof.
  unfold solver_solution, optimizeWithQP, try_catch, bind, lift, call_solveQP,
    throw, ret, emit.
  generalize (buildQuadprogMatrices vol base target); intros m.
  destruct (import_quadprog env) as [solveQP | e0]; cbn.
  - destruct (solveQP _ _ _ _ _) as [[r | ] | e1]; cbn.
    + intros ->. eauto.
    + eauto.
    + eauto.
  - eauto.
Qed.

Lemma optimizeWithQP_on_solution env vol base target log sol :
  solver_solution env vol base target = Some sol ->
  optimizeWithQP env vol base target log
  = (Normal (mapSolution vol base target sol), log ++ [SolveQPCalled]).
Proof.
  unfold solver_solution, optimizeWithQP, try_catch, bind, lift, call_solveQP,
    throw, ret, emit.
  generalize (buildQuadprogMatrices vol base target); intros m.
  destruct (import_quadprog env) as [solveQP | e0]; cbn; [ | discriminate].
  destruct (solveQP _ _ _ _ _) as [[r | ] | e1]; cbn; try discriminate.
  now intros ->.
Qed.

(** C3.  Whenever the QP solver fails on a run (it throws, returns nothing,
    or returns a result without a solution), [optimizeWithQP] still returns
    normally, with [feasible = false], all five salt additions zero in both
    the precise and the display vector, the calculated profile equal to the
    base profile, and every deviation equal to target minus base. *)
Theorem C3_infeasible_fallback :
  forall env vol base target log,
    solver_solution env vol base target = None ->
    exists r log',
      optimizeWithQP env vol base target log = (Normal r, log')
      /\ feasible r = false
      /\ map fst (saltAdditions r) = salt_names
      /\ all_zero (saltAdditions r)
      /\ map fst (saltAdditionsDisplay r) = salt_names
      /\ all_zero (saltAdditionsDisplay r)
      /\ calculatedProfile r = base
      /\ forall i, get_ion (deviations r) i
                   = (get_ion target i - get_ion base i)%num.
Proof.
  intros env vol base target log Hfail.
  destruct (optimizeWithQP_on_failure env vol base target log Hfail)
    as (e & log' & E).
  eexists; eexists; split; [exact E | ].
  cbn. repeat split; try (repeat constructor).
  intros i; destruct i; reflexivity.
Qed.

Lemma C3_infeasible_fallback_witness :
  solver_solution env_no_solution (lit 20) scenario_base scenario_target = None
  /\ exists r log',
      optimizeWithQP env_no_solution (lit 20) scenario_base scenario_target []
      = (Normal r, log')
      /\ feasible r = false
      /\ map fst (saltAdditions r) = salt_names
      /\ all_zero (saltAdditions r)
      /\ map fst (saltAdditionsDisplay r) = salt_names
      /\ all_zero (saltAdditionsDisplay r)
      /\ calculatedProfile r = scenario_base
      /\ forall i, get_ion (deviations r) i
                   = (get_ion scenario_target i - get_ion scenario_base i)%num.
Proof.
  split; [vm_compute; reflexivity | ].
  apply (C3_infeasible_fallback env_no_solution (lit 20) scenario_base
           scenario_target []).
  vm_compute; reflexivity.
Defined.

(** ** Validation failures in [calculateWaterAdditions] *)

Lemma calculateWaterAdditions_invalid env input log :
  valid (validateInputs (volume_liters input) (base_profile input)
           (target_profile input)) = false ->
  calculateWaterAdditions env input log
  = (Normal
       {| success := false;
          error :=
            Some ("Input validation failed: "
                    ++ join ", "
                         (errors (validateInputs (volume_liters input)
                                    (base_profile input) (target_profile input))))%string;
          additions := createEmptyAdditions;
          calculated_profile := base_profile input;
          result_deviations := createZeroDeviations;
          total_salt_weight := lit 0;
          brewing_analysis := calculateBrewingAnalysis (base_profile input) |},
     log).
Proof.
  intros Hv. unfold calculateWaterAdditions, try_catch.
  rewrite Hv. reflexivity.
Qed.

(** C9.  When validation fails, [calculateWaterAdditions] returns
    [success = false] with all five salt additions zero, the calculated
    profile equal to the base profile, every deviation exactly zero
    (whatever target minus base is) and a total salt weight of zero. *)
Theorem C9_validation_failure_result :
  forall env input log,
    valid (validateInputs (volume_liters input) (base_profile input)
             (target_profile input)) = false ->
    exists r,
      calculateWaterAdditions env input log = (Normal r, log)
      /\ success r = false
      /\ map fst (additions r) = salt_names
      /\ all_zero (additions r)
      /\ calculated_profile r = base_profile input
      /\ (forall i, get_ion (result_deviations r) i = lit 0)
      /\ total_salt_weight r = lit 0.
Proof.
  intros env input log Hv.
  eexists; split; [apply calculateWaterAdditions_invalid; exact Hv | ].
  cbn. repeat split; try (repeat constructor).
  intros i; destruct i; reflexivity.
Qed.

Lemma C9_validation_failure_result_witness :
  valid (validateInputs (lit 0) scenario_base scenario_target) = false
  /\ exists r,
      calculateWaterAdditions env_no_solution
        (mkCalculationInput (lit 0) scenario_base scenario_target) []
      = (Normal r, [])
      /\ success r = false
      /\ map fst (additions r) = salt_names
      /\ all_zero (additions r)
      /\ calculated_profile r = scenario_base
      /\ (forall i, get_ion (result_deviations r) i = lit 0)
      /\ total_salt_weight r = lit 0.
Proof.
  split; [vm_compute; reflexivity | ].
  apply (C9_validation_failure_result env_no_solution
           (mkCalculationInput (lit 0) scenario_base scenario_target) []).
  vm_compute; reflexivity.
Defined.

Lemma validateInputs_bad_volume vol base target :
  js_le vol (lit 0) = true \/ isFinite vol = false ->
  validateInputs vol base target
  = mkValidationResult false
      (volume_error vol :: errors (validateWaterProfile base "base")
         ++ errors (validateWaterProfile target "target")).
Proof.
  intros Hbad. unfold validateInputs, volume_error.
  destruct (isFinite vol) eqn:Efin; cbn [negb].
  - destruct Hbad as [Hle | Hnf]; [ | discriminate].
    rewrite Hle. reflexivity.
  - reflexivity.
Qed.

Lemma join_cons sep e rest :
  exists suffix, join sep (e :: rest) = (e ++ suffix)%string.
Proof.
  destruct rest as [ | e' rest'].
  - exists ""%string. cbn. clear. induction e; cbn; congruence.
  - eexists. cbn. reflexivity.
Qed.

(** C4.  A volume that is not finite or is at most zero is rejected by
    validation: [calculateWaterAdditions] returns normally a failure whose
    error message is that of an input-validation failure and names the
    volume, the log of the run is unchanged, so the QP solver has not been
    invoked (and nothing was built for it or reported by it). *)
Theorem C4_bad_volume_rejected_before_solver :
  forall env input log,
    js_le (volume_liters input) (lit 0) = true
    \/ isFinite (volume_liters input) = false ->
    exists r suffix log',
      calculateWaterAdditions env input log = (Normal r, log')
      /\ success r = false
      /\ error r = Some ("Input validation failed: "
                           ++ volume_error (volume_liters input) ++ suffix)%string
      /\ log' = log
      /\ solver_calls log' = solver_calls log
      /\ forall env' : Env,
          calculateWaterAdditions env' input log = (Normal r, log').
Proof.
  intros env input log Hbad.
  pose proof (validateInputs_bad_volume _ (base_profile input)
                (target_profile input) Hbad) as Ev.
  destruct (join_cons ", " (volume_error (volume_liters input))
              (errors (validateWaterProfile (base_profile input) "base")
               ++ errors (validateWaterProfile (target_profile input) "target")))
    as (suffix & Ej).
  assert (Hall : forall e : Env,
             calculateWaterAdditions e input log
             = (Normal
                  {| success := false;
                     error :=
                       Some ("Input validation failed: "
                               ++ volume_error (volume_liters input)
                               ++ suffix)%string;
                     additions := createEmptyAdditions;
                     calculated_profile := base_profile input;
                     result_deviations := createZeroDeviations;
                     total_salt_weight := lit 0;
                     brewing_analysis :=
                       calculateBrewingAnalysis (base_profile input) |},
                log)).
  { intros e. rewrite calculateWaterAdditions_invalid by (now rewrite Ev).
    rewrite Ev. cbn [errors]. rewrite Ej. reflexivity. }
  eexists; exists suffix; exists log.
  split; [apply Hall | ].
  repeat split. exact Hall.
Qed.

Lemma C4_bad_volume_rejected_before_solver_witness :
  (js_le (lit (-3)) (lit 0) = true \/ isFinite (lit (-3)) = false)
  /\ exists r suffix log',
      calculateWaterAdditions (env_returning scenario_solution)
        (mkCalculationInput (lit (-3)) scenario_base scenario_target) []
      = (Normal r, log')
      /\ success r = false
      /\ error r = Some ("Input validation failed: "
                           ++ volume_error (lit (-3)) ++ suffix)%string
      /\ log' = []
      /\ solver_calls log' = solver_calls []
      /\ forall env' : Env,
          calculateWaterAdditions env'
            (mkCalculationInput (lit (-3)) scenario_base scenario_target) []
          = (Normal r, log').
Proof.
  split; [left; vm_compute; reflexivity | ].
  apply (C4_bad_volume_rejected_before_solver (env_returning scenario_solution)
           (mkCalculationInput (lit (-3)) scenario_base scenario_target) []).
  left; vm_compute; reflexivity.
Defined.

(** ** The sulfate/chloride guard of [calculateBrewingAnalysis] *)

Lemma js_gt_zero_or_le (a : number) :
  isNaN a = false -> js_gt a (lit 0) = negb (js_le a (lit 0)).
Proof.
  destruct a as [q | | | ]; cbn; try reflexivity; try discriminate.
  intros _. unfold Qc_ltb, Qc_leb, Qccompare.
  rewrite <- (Qcompare_antisym q (Q2Qc 0)).
  destruct (Qcompare q (Q2Qc 0)); reflexivity.
Qed.

Lemma balance_of_ratio (r : number) :
  getSulfateChlorideBalance (Some r) <> "N/A (No Chloride)".
Proof.
  unfold getSulfateChlorideBalance.
  repeat match goal with
         | |- context [if ?b then _ else _] => destruct b
         end; discriminate.
Qed.

(** What the guard does on every profile, [NaN] included: the ratio is
    [null] exactly when the test [Cl > 0] fails. *)
Lemma ratio_null_iff_guard_fails (p : WaterProfile) :
  sulfate_chloride_ratio (calculateBrewingAnalysis p) = None
  <-> js_gt (Cl p) (lit 0) = false.
Proof.
  unfold calculateBrewingAnalysis; cbn [sulfate_chloride_ratio].
  destruct (js_gt (Cl p) (lit 0)); split; congruence.
Qed.

(** C10.  For every water profile, [NaN] concentrations included,
    [calculateBrewingAnalysis] returns a null sulfate/chloride ratio exactly
    when the guard [Cl > 0] fails, that is when chloride is at most zero or
    is [NaN]; when the guard holds the ratio is the rounded quotient
    SO4 / Cl, so the division happens only for Cl > 0; and the balance
    label is 'N/A (No Chloride)' in that case and only that case.  For a
    chloride value that is a number, the guard fails exactly when chloride
    is at most zero. *)
Theorem C10_ratio_null_iff_chloride_not_positive :
  forall p : WaterProfile,
    let a := calculateBrewingAnalysis p in
    (sulfate_chloride_ratio a = None <-> js_gt (Cl p) (lit 0) = false)
    /\ (js_gt (Cl p) (lit 0) = true ->
        sulfate_chloride_ratio a
        = Some (Math_round ((SO4 p / Cl p) * lit 100) / lit 100)%num)
    /\ (sulfate_chloride_balance a = "N/A (No Chloride)"
        <-> js_gt (Cl p) (lit 0) = false)
    /\ (js_gt (Cl p) (lit 0) = false
        <-> js_le (Cl p) (lit 0) = true \/ isNaN (Cl p) = true).
Proof.
  intros p a. subst a.
  split; [apply ratio_null_iff_guard_fails | ].
  unfold calculateBrewingAnalysis;
    cbn [sulfate_chloride_ratio sulfate_chloride_balance].
  split; [intros ->; reflexivity | ].
  split.
  - destruct (js_gt (Cl p) (lit 0)).
    + split; [ | discriminate]. intros Hl. exfalso.
      eapply balance_of_ratio; eassumption.
    + split; reflexivity.
  - destruct (isNaN (Cl p)) eqn:Hnan.
    + destruct (Cl p); try discriminate. split; [now right | reflexivity].
    + rewrite (js_gt_zero_or_le (Cl p) Hnan).
      destruct (js_le (Cl p) (lit 0)); cbn [negb]; split; auto.
      intros [H | H]; discriminate.
Qed.

(** C10, as stated for every profile with "at most zero", fails on a
    chloride concentration that is [NaN] (validation does not stand in the
    way: the analysis of a rejected base profile is still computed): the
    ratio is null and the label is 'N/A (No Chloride)' although chloride is
    not at most zero. *)
Lemma C10_counterexample :
  let p := mkWaterProfile (lit 22) (lit 2.7) (lit 12) (lit 6) NaN (lit 50) in
  let a := calculateBrewingAnalysis p in
  sulfate_chloride_ratio a = None
  /\ sulfate_chloride_balance a = "N/A (No Chloride)"
  /\ js_le (Cl p) (lit 0) = false
  /\ forall env log,
      exists r,
        fst (calculateWaterAdditions env
               (mkCalculationInput (lit 20) p scenario_target) log) = Normal r
        /\ sulfate_chloride_ratio (brewing_analysis r) = None
        /\ sulfate_chloride_balance (brewing_analysis r) = "N/A (No Chloride)".
Proof.
  cbv zeta.
  split; [reflexivity | split; [reflexivity | split; [reflexivity | ]]].
  intros env log. eexists.
  rewrite calculateWaterAdditions_invalid by (vm_compute; reflexivity).
  cbn [fst brewing_analysis base_profile]. repeat split.
Qed.

(** ** Infeasibility at the level of [optimizeSaltAdditions] *)

Lemma optimizeSaltAdditions_on_failure env vol base target log :
  solver_solution env vol base target = None ->
  exists log',
    optimizeSaltAdditions env vol base target log
    = (Thrown (Error infeasible_message), log').
Proof.
  intros Hfail.
  destruct (optimizeWithQP_on_failure env vol base target log Hfail)
    as (e & log' & E).
  eexists. unfold optimizeSaltAdditions.
  rewrite (bind_normal _ _ _ _ _ E). reflexivity.
Qed.

(** A result that [optimizeSaltAdditions] does return is always feasible. *)
Lemma optimizeSaltAdditions_returns_feasible env vol base target log r log' :
  optimizeSaltAdditions env vol base target log = (Normal r, log') ->
  feasible r = true.
Proof.
  unfold optimizeSaltAdditions, bind.
  destruct (optimizeWithQP env vol base target log) as [[r0 | e] l0];
    [ | discriminate].
  destruct (feasible r0) eqn:Ef; cbn; [ | discriminate].
  intros [= <- _]. reflexivity.
Qed.

(** C2, as amended.  On every input on which the solver reports no
    feasible point, [optimizeWithQP] returns normally a result whose
    [feasible] field is false, but [optimizeSaltAdditions] does not return
    it: it throws the error 'Unable to find a feasible solution for the
    target water profile'.  A valid input therefore ends, one level up, in
    [calculateWaterAdditions] returning normally [success = false] with
    that message. *)
Theorem C2_infeasible_is_thrown :
  forall env vol base target log,
    solver_solution env vol base target = None ->
    (exists r log',
        optimizeWithQP env vol base target log = (Normal r, log')
        /\ feasible r = false)
    /\ (exists log',
           optimizeSaltAdditions env vol base target log
           = (Thrown (Error infeasible_message), log'))
    /\ (valid (validateInputs vol base target) = true ->
        exists cr log',
          calculateWaterAdditions env (mkCalculationInput vol base target) log
          = (Normal cr, log')
          /\ success cr = false
          /\ error cr = Some ("Calculation error: " ++ infeasible_message)%string).
Proof.
  intros env vol base target log Hfail. repeat split.
  - destruct (optimizeWithQP_on_failure env vol base target log Hfail)
      as (e & log' & E).
    eexists; eexists; split; [exact E | reflexivity].
  - apply optimizeSaltAdditions_on_failure; exact Hfail.
  - intros Hv.
    destruct (optimizeSaltAdditions_on_failure env vol base target log Hfail)
      as (log' & E).
    unfold calculateWaterAdditions, try_catch.
    cbn [volume_liters base_profile target_profile].
    rewrite Hv. cbn [negb].
    rewrite (bind_thrown _ _ _ _ _ E).
    eexists; eexists; split; [reflexivity | split; reflexivity].
Qed.

Lemma C2_infeasible_is_thrown_witness :
  solver_solution env_no_solution (lit 20) scenario_base scenario_target = None
  /\ exists log',
      optimizeSaltAdditions env_no_solution (lit 20) scenario_base
        scenario_target []
      = (Thrown (Error infeasible_message), log').
Proof.
  split; [vm_compute; reflexivity | ].
  apply (C2_infeasible_is_thrown env_no_solution (lit 20) scenario_base
           scenario_target []).
  vm_compute; reflexivity.
Defined.

(** C2, as stated, fails: with a solver that returns no solution
    [optimizeSaltAdditions] does not return a result at all, it throws. *)
Lemma C2_counterexample :
  solver_solution env_no_solution (lit 20) scenario_base scenario_target = None
  /\ fst (optimizeSaltAdditions env_no_solution (lit 20) scenario_base
            scenario_target [])
     = Thrown (Error infeasible_message)
  /\ ~ (exists r log',
           optimizeSaltAdditions env_no_solution (lit 20) scenario_base
             scenario_target [] = (Normal r, log')
           /\ feasible r = false).
Proof.
  assert (E : fst (optimizeSaltAdditions env_no_solution (lit 20) scenario_base
                     scenario_target [])
              = Thrown (Error infeasible_message))
    by (vm_compute; reflexivity).
  split; [vm_compute; reflexivity | split; [exact E | ]].
  intros (r & log' & Hret & _). rewrite Hret in E. discriminate.
Qed.

(** ** Negative solver components *)

Lemma negative_is_truthy (x : number) :
  js_lt x (lit 0) = true -> truthy x = true.
Proof.
  destruct x as [q | | | ]; cbn; try reflexivity; try discriminate.
  unfold Qc_ltb, Qc_sign. destruct (Qccompare q (Q2Qc 0)); congruence.
Qed.

(** C1, as amended.  When the solver returns a solution, [optimizeWithQP]
    returns a result with [feasible = true] whose full-precision vector
    holds, for each of the five additives, the solver's component as it was
    returned (zero stands in only for a missing, zero or NaN component).  A
    negative component, whatever its magnitude, is therefore handed on
    unchanged: it is not replaced by zero and it raises no error. *)
Theorem C1_solution_passed_through :
  forall env vol base target log sol,
    solver_solution env vol base target = Some sol ->
    exists r,
      optimizeWithQP env vol base target log = (Normal r, log ++ [SolveQPCalled])
      /\ feasible r = true
      /\ map fst (saltAdditions r) = salt_names
      /\ forall i key,
          nth_error salt_names i = Some key ->
          obj_get (saltAdditions r) key = Some (js_or (arr_get sol (S i)) (lit 0))
          /\ forall x,
              arr_get sol (S i) = Some x ->
              js_lt x (lit 0) = true ->
              obj_get (saltAdditions r) key = Some x.
Proof.
  intros env vol base target log sol Hsol.
  eexists; split; [apply optimizeWithQP_on_solution; exact Hsol | ].
  unfold mapSolution; cbn [feasible saltAdditions].
  split; [reflexivity | split; [reflexivity | ]].
  intros i key Hkey.
  assert (Hget : obj_get
                   [("Gypsum (CaSO4)", js_or (arr_get sol 1) (lit 0));
                    ("Calcium Chloride (CaCl2)", js_or (arr_get sol 2) (lit 0));
                    ("Epsom Salt (MgSO4)", js_or (arr_get sol 3) (lit 0));
                    ("Table Salt (NaCl)", js_or (arr_get sol 4) (lit 0));
                    ("Baking Soda (NaHCO3)", js_or (arr_get sol 5) (lit 0))] key
                 = Some (js_or (arr_get sol (S i)) (lit 0))).
  { do 5 (destruct i as [ | i];
          [cbn in Hkey; injection Hkey as <-; reflexivity | ]).
    destruct i; discriminate. }
  split; [exact Hget | ].
  intros x Hx Hneg. rewrite Hget, Hx. cbn [js_or].
  now rewrite (negative_is_truthy x Hneg).
Qed.

Lemma C1_solution_passed_through_witness :
  solver_solution (env_returning negative_solution) (lit 20) scenario_base
    scenario_target = Some negative_solution
  /\ exists r,
      optimizeWithQP (env_returning negative_solution) (lit 20) scenario_base
        scenario_target []
      = (Normal r, [] ++ [SolveQPCalled])
      /\ feasible r = true
      /\ map fst (saltAdditions r) = salt_names
      /\ forall i key,
          nth_error salt_names i = Some key ->
          obj_get (saltAdditions r) key
          = Some (js_or (arr_get negative_solution (S i)) (lit 0))
          /\ forall x,
              arr_get negative_solution (S i) = Some x ->
              js_lt x (lit 0) = true ->
              obj_get (saltAdditions r) key = Some x.
Proof.
  split; [vm_compute; reflexivity | ].
  apply (C1_solution_passed_through (env_returning negative_solution) (lit 20)
           scenario_base scenario_target [] negative_solution).
  vm_compute; reflexivity.
Defined.

(** C1, as stated, fails.  The solver answers with a first component of
    -1e-10 (noise) and a second of -5 (a contract violation): the run
    returns normally with [feasible = true], the noise is not replaced by
    zero, the violation raises no error, and both returned additions are
    negative. *)
Lemma C1_counterexample :
  exists r,
    optimizeWithQP (env_returning negative_solution) (lit 20) scenario_base
      scenario_target []
    = (Normal r, [SolveQPCalled])
    /\ feasible r = true
    /\ obj_get (saltAdditions r) "Gypsum (CaSO4)" = Some (lit (-0.0000000001))
    /\ obj_get (saltAdditions r) "Gypsum (CaSO4)" <> Some (lit 0)
    /\ obj_get (saltAdditions r) "Calcium Chloride (CaCl2)" = Some (lit (-5))
    /\ js_lt (to_number (obj_get (saltAdditions r) "Gypsum (CaSO4)")) (lit 0) = true
    /\ js_lt (to_number (obj_get (saltAdditions r) "Calcium Chloride (CaCl2)"))
         (lit 0) = true.
Proof.
  eexists; split.
  - apply (optimizeWithQP_on_solution (env_returning negative_solution) (lit 20)
             scenario_base scenario_target [] negative_solution).
    vm_compute; reflexivity.
  - unfold mapSolution; cbn [feasible saltAdditions].
    repeat split; try (vm_compute; reflexivity).
    vm_compute. intros [= E].
Qed.

(** ** Rounding to one decimal place *)

Ltac qc_to_q :=
  unfold tenths, Qcdiv, Qcmult, Qcplus, Qcminus, Qcopp, Qcinv, Z2Qc, Q2Qc;
  cbn [this]; rewrite ?Qred_correct.

Lemma round1_Fin (x : Qc) :
  round1 (Fin x) = Fin (tenths (Qfloor (x * Q2Qc 10 + Q2Qc 0.5)%Qc)).
Proof. reflexivity. Qed.

Lemma Qfloor_half (k : Z) : Qfloor (inject_Z k + 0.5) = k.
Proof.
  assert (E : inject_Z k + 0.5 == (2 * k + 1) # 2).
  { unfold Qeq, Qplus, inject_Z; cbn [Qnum Qden]. lia. }
  rewrite E. unfold Qfloor.
  symmetry. apply (Z.div_unique_pos _ _ _ 1); lia.
Qed.

Lemma floor_of_tenths (k : Z) :
  Qfloor (tenths k * Q2Qc 10 + Q2Qc 0.5)%Qc = k.
Proof.
  qc_to_q.
  assert (E : inject_Z k * / 10 * 10 + 0.5 == inject_Z k + 0.5) by field.
  rewrite E. apply Qfloor_half.
Qed.

Lemma floor_at_least_one (x : Qc) :
  Qc_ltb x (Q2Qc 0.1) = false ->
  (1 <= Qfloor (x * Q2Qc 10 + Q2Qc 0.5)%Qc)%Z.
Proof.
  unfold Qc_ltb, Qccompare. intros Hx.
  assert (Hle : (0.1 <= this x)%Q).
  { apply Qnot_lt_le. intros Hlt.
    assert (E : Qcompare x (Q2Qc 0.1) = Lt).
    { apply Qlt_alt. cbn [this Q2Qc]. rewrite Qred_correct. exact Hlt. }
    rewrite E in Hx. discriminate. }
  qc_to_q.
  change 1%Z with (Qfloor (inject_Z 1)).
  apply Qfloor_resp_le. change (inject_Z 1) with 1%Q.
  clear Hx. generalize dependent (this x). intros y Hle. lra.
Qed.

Lemma tenths_not_small (k : Z) :
  (1 <= k)%Z -> Qc_ltb (tenths k) (Q2Qc 0.1) = false.
Proof.
  intros Hk. unfold Qc_ltb, Qccompare.
  assert (Hy : (1 <= inject_Z k)%Q)
    by (change 1%Q with (inject_Z 1); rewrite <- Zle_Qle; exact Hk).
  destruct (Qcompare (tenths k) (Q2Qc 0.1)) eqn:E; try reflexivity.
  exfalso. apply Qlt_alt in E. revert E. qc_to_q. intros E.
  generalize dependent (inject_Z k). intros y E Hy.
  destruct y as [n d]. unfold Qlt, Qle, Qmult, Qinv in *.
  cbn [Qnum Qden] in *. lia.
Qed.

(** Rounding an already rounded number changes nothing. *)
Lemma round1_idempotent (x : number) : round1 (round1 x) = round1 x.
Proof.
  destruct x as [q | | | ]; try reflexivity.
  rewrite (round1_Fin q), round1_Fin, floor_of_tenths. reflexivity.
Qed.

Lemma small_to_zero_Fin (q : Qc) :
  small_to_zero (Fin q)
  = if Qc_ltb q (Q2Qc 0.1) then lit 0 else round1 (Fin q).
Proof. reflexivity. Qed.

Lemma small_to_zero_idempotent (x : number) :
  small_to_zero (small_to_zero x) = small_to_zero x.
Proof.
  destruct x as [q | | | ]; try reflexivity.
  rewrite (small_to_zero_Fin q).
  destruct (Qc_ltb q (Q2Qc 0.1)) eqn:Hq; [reflexivity | ].
  rewrite round1_Fin, small_to_zero_Fin.
  rewrite (tenths_not_small _ (floor_at_least_one q Hq)).
  rewrite round1_Fin, floor_of_tenths. reflexivity.
Qed.

(** Flooring of an amount that is already rounded is the display policy. *)
Lemma small_to_zero_round1 (x : number) :
  small_to_zero (round1 x) = display_policy x.
Proof.
  unfold small_to_zero, display_policy.
  now rewrite round1_idempotent.
Qed.

(** ** Key-by-key update of an object *)

Section ObjectUpdate.

Variable f : number -> number.
Hypothesis f_idempotent : forall v, f (f v) = f v.

Lemma obj_touch_cons k v rest key :
  obj_touch f ((k, v) :: rest) key
  = if String.eqb k key then (k, f v) :: rest
    else (k, v) :: obj_touch f rest key.
Proof.
  unfold obj_touch; cbn [obj_get obj_set].
  destruct (String.eqb k key); reflexivity.
Qed.

Lemma obj_touch_keys o key :
  In key (Object_keys o) -> Object_keys (obj_touch f o key) = Object_keys o.
Proof.
  unfold Object_keys.
  induction o as [ | [k v] rest IH]; [intros [] | ].
  rewrite obj_touch_cons. cbn [map fst In].
  destruct (String.eqb_spec k key) as [-> | Hne]; [reflexivity | ].
  intros [Hk | Hin]; [contradiction | ].
  cbn [map fst]. f_equal. now apply IH.
Qed.

Lemma obj_touch_twice o key :
  obj_touch f (obj_touch f o key) key = obj_touch f o key.
Proof.
  induction o as [ | [k v] rest IH].
  - unfold obj_touch at 2; cbn [obj_get obj_set to_number].
    rewrite obj_touch_cons, String.eqb_refl. now rewrite f_idempotent.
  - rewrite (obj_touch_cons k v rest key).
    destruct (String.eqb k key) eqn:E; rewrite obj_touch_cons, E.
    + now rewrite f_idempotent.
    + now rewrite IH.
Qed.

Lemma obj_touch_comm o key key' :
  In key (Object_keys o) -> In key' (Object_keys o) ->
  obj_touch f (obj_touch f o key) key' = obj_touch f (obj_touch f o key') key.
Proof.
  induction o as [ | [k v] rest IH]; [intros [] | ].
  cbn [Object_keys map fst In]. intros Hkey Hkey'.
  rewrite (obj_touch_cons k v rest key), (obj_touch_cons k v rest key').
  destruct (String.eqb_spec k key) as [-> | Hne];
    destruct (String.eqb_spec key key') as [<- | Hne'];
    try reflexivity.
  - rewrite !obj_touch_cons, String.eqb_refl.
    destruct (String.eqb_spec key key'); [contradiction | reflexivity].
  - destruct (String.eqb_spec k key) as [ | _]; [contradiction | ].
    rewrite !obj_touch_cons.
    destruct (String.eqb_spec k key); [contradiction | reflexivity].
  - destruct (String.eqb_spec k key') as [-> | Hne''].
    + rewrite !obj_touch_cons, String.eqb_refl.
      destruct (String.eqb_spec key' key); [congruence | reflexivity].
    + rewrite !obj_touch_cons.
      destruct (String.eqb_spec k key); [contradiction | ].
      destruct (String.eqb_spec k key'); [contradiction | ].
      f_equal. apply IH.
      * destruct Hkey; [contradiction | assumption].
      * destruct Hkey'; [contradiction | assumption].
Qed.

Lemma fold_touch_keys keys o :
  (forall key, In key keys -> In key (Object_keys o)) ->
  Object_keys (fold_left (obj_touch f) keys o) = Object_keys o.
Proof.
  revert o. induction keys as [ | key rest IH]; intros o Hin; [reflexivity | ].
  cbn [fold_left]. rewrite IH.
  - apply obj_touch_keys, Hin. now left.
  - intros key' Hkey'. rewrite obj_touch_keys by (apply Hin; now left).
    apply Hin. now right.
Qed.

(** One more update of a key slides through the updates of other keys. *)
Lemma fold_touch_comm keys o key :
  In key (Object_keys o) ->
  (forall key', In key' keys -> In key' (Object_keys o)) ->
  obj_touch f (fold_left (obj_touch f) keys o) key
  = fold_left (obj_touch f) keys (obj_touch f o key).
Proof.
  revert o. induction keys as [ | k rest IH]; intros o Hkey Hin; [reflexivity | ].
  cbn [fold_left].
  assert (Hk : In k (Object_keys o)) by (apply Hin; now left).
  rewrite IH.
  - now rewrite obj_touch_comm.
  - now rewrite obj_touch_keys.
  - intros key' Hkey'. rewrite obj_touch_keys by exact Hk.
    apply Hin. now right.
Qed.

Lemma fold_touch_twice keys o :
  (forall key, In key keys -> In key (Object_keys o)) ->
  fold_left (obj_touch f) keys (fold_left (obj_touch f) keys o)
  = fold_left (obj_touch f) keys o.
Proof.
  revert o. induction keys as [ | k rest IH]; intros o Hin; [reflexivity | ].
  cbn [fold_left].
  assert (Hk : In k (Object_keys o)) by (apply Hin; now left).
  assert (Hrest : forall key, In key rest -> In key (Object_keys (obj_touch f o k))).
  { intros key Hkey. rewrite obj_touch_keys by exact Hk. apply Hin. now right. }
  rewrite fold_touch_comm.
  - rewrite obj_touch_twice. now apply IH.
  - rewrite obj_touch_keys by exact Hk. exact Hk.
  - exact Hrest.
Qed.

(** On an object with distinct keys the walk over the keys is a map over
    the entries. *)
Lemma fold_touch_distinct rest :
  forall done,
    NoDup (Object_keys (done ++ rest)) ->
    fold_left (obj_touch f) (Object_keys rest) (done ++ rest)
    = done ++ map (fun e => (fst e, f (snd e))) rest.
Proof.
  induction rest as [ | [k v] rest IH]; intros done Hnd; [reflexivity | ].
  cbn [Object_keys map fst snd fold_left].
  assert (Hstep : obj_touch f (done ++ (k, v) :: rest) k
                  = (done ++ [(k, f v)]) ++ rest).
  { assert (Hk : ~ In k (Object_keys done)).
    { unfold Object_keys in Hnd. rewrite map_app in Hnd. cbn [map fst] in Hnd.
      apply NoDup_remove_2 in Hnd. intros Hin. apply Hnd.
      apply in_or_app. now left. }
    clear Hnd IH. induction done as [ | [k' v'] done IH]; cbn [app].
    - now rewrite obj_touch_cons, String.eqb_refl.
    - rewrite obj_touch_cons.
      destruct (String.eqb_spec k' k) as [-> | Hne].
      + exfalso. apply Hk. now left.
      + f_equal. apply IH. intros Hin. apply Hk. now right. }
  rewrite Hstep.
  change (fold_left (obj_touch f) (map fst rest))
    with (fold_left (obj_touch f) (Object_keys rest)).
  rewrite IH.
  - now rewrite <- app_assoc.
  - unfold Object_keys in *. rewrite <- app_assoc. cbn [app].
    rewrite map_app in *. exact Hnd.
Qed.

End ObjectUpdate.

Lemma roundSmallAdditions_touch (s : SaltAdditions) :
  roundSmallAdditions s = fold_left (obj_touch small_to_zero) (Object_keys s) s.
Proof.
  unfold roundSmallAdditions. generalize (Object_keys s). intros keys.
  revert s. induction keys as [ | key rest IH]; intros s; [reflexivity | ].
  cbn [fold_left]. rewrite <- IH. f_equal.
  unfold obj_touch, small_to_zero, round1.
  destruct (js_lt (to_number (obj_get s key)) (lit 0.1)); reflexivity.
Qed.

Lemma roundSmallAdditions_keys (s : SaltAdditions) :
  Object_keys (roundSmallAdditions s) = Object_keys s.
Proof. rewrite roundSmallAdditions_touch. apply fold_touch_keys. auto. Qed.

(** On an object with distinct keys every amount goes through
    [small_to_zero]. *)
Lemma roundSmallAdditions_map (s : SaltAdditions) :
  NoDup (Object_keys s) ->
  roundSmallAdditions s = map (fun e => (fst e, small_to_zero (snd e))) s.
Proof.
  intros Hnd. rewrite roundSmallAdditions_touch.
  apply (fold_touch_distinct small_to_zero s []). exact Hnd.
Qed.

(** C8.  Display rounding is idempotent: on every salt-additions object,
    [roundSmallAdditions] applied twice gives exactly what it gives when
    applied once. *)
Theorem C8_roundSmallAdditions_idempotent :
  forall s : SaltAdditions,
    roundSmallAdditions (roundSmallAdditions s) = roundSmallAdditions s.
Proof.
  intros s.
  rewrite (roundSmallAdditions_touch (roundSmallAdditions s)).
  rewrite roundSmallAdditions_keys, roundSmallAdditions_touch.
  apply fold_touch_twice; [apply small_to_zero_idempotent | auto].
Qed.

(** ** The display vector of a successful run *)

Lemma optimizeSaltAdditions_on_solution env vol base target log sol :
  solver_solution env vol base target = Some sol ->
  let r := mapSolution vol base target sol in
  optimizeSaltAdditions env vol base target log
  = (Normal {| saltAdditions := saltAdditions r;
               saltAdditionsDisplay := saltAdditionsDisplay r;
               calculatedProfile := calculatedProfile r;
               deviations := deviations r;
               feasible := feasible r;
               iterations := Some 1%nat |},
     log ++ [SolveQPCalled]).
Proof.
  intros Hsol r. unfold optimizeSaltAdditions.
  rewrite (bind_normal _ _ _ _ _
             (optimizeWithQP_on_solution env vol base target log sol Hsol)).
  reflexivity.
Qed.

Lemma calculateWaterAdditions_on_solution env vol base target log sol :
  valid (validateInputs vol base target) = true ->
  solver_solution env vol base target = Some sol ->
  exists cr,
    calculateWaterAdditions env (mkCalculationInput vol base target) log
    = (Normal cr, log ++ [SolveQPCalled])
    /\ success cr = true
    /\ additions cr
       = roundSmallAdditions (saltAdditionsDisplay (mapSolution vol base target sol)).
Proof.
  intros Hv Hsol.
  unfold calculateWaterAdditions, try_catch.
  cbn [volume_liters base_profile target_profile].
  rewrite Hv. cbn [negb].
  rewrite (bind_normal _ _ _ _ _
             (optimizeSaltAdditions_on_solution env vol base target log sol Hsol)).
  unfold ret. eexists; split; [reflexivity | split; reflexivity].
Qed.

Lemma saltAdditionsDisplay_mapSolution vol base target sol :
  saltAdditionsDisplay (mapSolution vol base target sol)
  = map (fun e => (fst e, round1 (snd e)))
      (saltAdditions (mapSolution vol base target sol)).
Proof. reflexivity. Qed.

Lemma saltAdditions_component vol base target sol i key :
  nth_error salt_names i = Some key ->
  obj_get (saltAdditions (mapSolution vol base target sol)) key
  = Some (js_or (arr_get sol (S i)) (lit 0)).
Proof.
  intros Hkey. unfold mapSolution; cbn [saltAdditions].
  do 5 (destruct i as [ | i];
        [cbn in Hkey; injection Hkey as <-; reflexivity | ]).
  destruct i; discriminate.
Qed.

(** C7.  On a successful run (valid input, the solver returns a solution)
    the display vector that [calculateWaterAdditions] reports is obtained
    from the full-precision vector entry by entry: rounded to one decimal
    place, and set to exactly 0 when the rounded quantity is below 0.1.
    The rounding touches the display copy only: the full-precision vector
    of the optimization result still holds the solver's components, and
    the achieved profile and the deviations are computed from it. *)
Theorem C7_display_is_rounded_copy :
  forall env vol base target log sol,
    valid (validateInputs vol base target) = true ->
    solver_solution env vol base target = Some sol ->
    exists r cr log',
      optimizeWithQP env vol base target log = (Normal r, log')
      /\ calculateWaterAdditions env (mkCalculationInput vol base target) log
         = (Normal cr, log')
      /\ success cr = true
      /\ saltAdditionsDisplay r
         = map (fun e => (fst e, round1 (snd e))) (saltAdditions r)
      /\ additions cr
         = map (fun e => (fst e, display_policy (snd e))) (saltAdditions r)
      /\ (forall i key,
             nth_error salt_names i = Some key ->
             obj_get (saltAdditions r) key
             = Some (js_or (arr_get sol (S i)) (lit 0)))
      /\ calculatedProfile r = achievedProfile vol base (saltAdditions r)
      /\ (forall i, get_ion (deviations r) i
                    = (get_ion (achievedProfile vol base (saltAdditions r)) i
                       - get_ion target i)%num).
Proof.
  intros env vol base target log sol Hv Hsol.
  destruct (calculateWaterAdditions_on_solution env vol base target log sol
              Hv Hsol) as (cr & Ecr & Hok & Hadd).
  exists (mapSolution vol base target sol), cr, (log ++ [SolveQPCalled]).
  split; [apply optimizeWithQP_on_solution; exact Hsol | ].
  split; [exact Ecr | ].
  split; [exact Hok | ].
  split; [apply saltAdditionsDisplay_mapSolution | ].
  split.
  { rewrite Hadd, roundSmallAdditions_map, saltAdditionsDisplay_mapSolution.
    - rewrite map_map. apply map_ext. intros [k v]. cbn [fst snd].
      now rewrite small_to_zero_round1.
    - unfold mapSolution; cbn [saltAdditionsDisplay Object_keys map fst].
      repeat constructor; cbn [In]; intuition discriminate. }
  split; [intros i key; apply saltAdditions_component | ].
  split; [reflexivity | ].
  intros i. unfold mapSolution. cbn [deviations saltAdditions].
  destruct i; cbn [get_ion Ca Mg Na SO4 Cl HCO3]; reflexivity.
Qed.

Lemma C7_display_is_rounded_copy_witness :
  valid (validateInputs (lit 20) scenario_base scenario_target) = true
  /\ solver_solution (env_returning scenario_solution) (lit 20) scenario_base
       scenario_target = Some scenario_solution
  /\ exists r cr log',
      optimizeWithQP (env_returning scenario_solution) (lit 20) scenario_base
        scenario_target [] = (Normal r, log')
      /\ calculateWaterAdditions (env_returning scenario_solution)
           (mkCalculationInput (lit 20) scenario_base scenario_target) []
         = (Normal cr, log')
      /\ success cr = true
      /\ saltAdditionsDisplay r
         = map (fun e => (fst e, round1 (snd e))) (saltAdditions r)
      /\ additions cr
         = map (fun e => (fst e, display_policy (snd e))) (saltAdditions r)
      /\ (forall i key,
             nth_error salt_names i = Some key ->
             obj_get (saltAdditions r) key
             = Some (js_or (arr_get scenario_solution (S i)) (lit 0)))
      /\ calculatedProfile r
         = achievedProfile (lit 20) scenario_base (saltAdditions r)
      /\ (forall i, get_ion (deviations r) i
                    = (get_ion (achievedProfile (lit 20) scenario_base
                                  (saltAdditions r)) i
                       - get_ion scenario_target i)%num).
Proof.
  split; [vm_compute; reflexivity | ].
  split; [vm_compute; reflexivity | ].
  apply (C7_display_is_rounded_copy (env_returning scenario_solution) (lit 20)
           scenario_base scenario_target [] scenario_solution).
  - vm_compute; reflexivity.
  - vm_compute; reflexivity.
Defined.

(** ** Algebra of the number model *)

Lemma js_add_0_r (x : number) : (x + lit 0)%num = x.
Proof.
  destruct x as [q | | | ]; try reflexivity.
  unfold lit; cbn [js_add]. f_equal. apply Qcplus_0_r.
Qed.

Lemma js_mul_comm (a b : number) : (a * b)%num = (b * a)%num.
Proof.
  destruct a, b; cbn [js_mul]; try reflexivity.
  f_equal. apply Qcmult_comm.
Qed.

Lemma js_mul_0_l (x : number) : isFinite x = true -> (lit 0 * x)%num = lit 0.
Proof.
  destruct x as [q | | | ]; try discriminate. intros _.
  unfold lit; cbn [js_mul]. f_equal. apply Qcmult_0_l.
Qed.

Lemma js_mul_0_r (x : number) : isFinite x = true -> (x * lit 0)%num = lit 0.
Proof. intros Hx. rewrite js_mul_comm. now apply js_mul_0_l. Qed.

Lemma positive_sign (v : Qc) : Qc_ltb (Q2Qc 0) v = true -> Qc_sign v = Gt.
Proof.
  unfold Qc_ltb, Qc_sign, Qccompare.
  rewrite <- (Qcompare_antisym v (Q2Qc 0)).
  destruct (Qcompare v (Q2Qc 0)); cbn; congruence.
Qed.

Lemma js_div_Fin_pos (c v : Qc) :
  Qc_ltb (Q2Qc 0) v = true -> (Fin c / Fin v)%num = Fin (c / v)%Qc.
Proof. intros Hv. cbn [js_div]. now rewrite (positive_sign v Hv). Qed.

Lemma js_div_0_l (vol : number) :
  js_gt vol (lit 0) = true -> (lit 0 / vol)%num = lit 0.
Proof.
  destruct vol as [v | | | ]; try discriminate; [ | reflexivity].
  intros Hv. unfold lit. rewrite js_div_Fin_pos by exact Hv.
  f_equal. unfold Qcdiv. apply Qcmult_0_l.
Qed.

Lemma nonneg_not_pos_is_zero (q : Qc) :
  Qc_leb (Q2Qc 0) q = true -> Qc_ltb (Q2Qc 0) q = false -> q = Q2Qc 0.
Proof.
  unfold Qc_leb, Qc_ltb. intros Hle Hlt.
  destruct (Qccompare (Q2Qc 0) q) eqn:E; try discriminate.
  symmetry. now apply Qceq_alt.
Qed.

Lemma set_get_same (p : WaterProfile) (i : Ion) : set_ion p i (get_ion p i) = p.
Proof. destruct p, i; reflexivity. Qed.

(** ** The achieved profile and the contribution model *)

Lemma profile_salts_catalog :
  profile_salts = map (fun s => (name s, contributions s)) BREWING_SALTS.
Proof. vm_compute. reflexivity. Qed.

Lemma per_unit_finite (s : Salt) (i : Ion) :
  In s BREWING_SALTS -> isFinite (per_unit s i) = true.
Proof.
  unfold BREWING_SALTS; cbn [In].
  intros [<- | [<- | [<- | [<- | [<- | []]]]]]; destruct i; reflexivity.
Qed.

Lemma applySalt_adds_term vol qs p s i q :
  In s BREWING_SALTS ->
  js_gt vol (lit 0) = true ->
  to_number (obj_get qs (name s)) = Fin q ->
  Qc_leb (Q2Qc 0) q = true ->
  get_ion (applySalt vol qs p (name s, contributions s)) i
  = (get_ion p i + (Fin q * per_unit s i) / vol)%num.
Proof.
  intros Hs Hvol Hq Hnn.
  unfold applySalt; cbn [fst snd]. rewrite Hq.
  change (js_gt (Fin q) (lit 0)) with (Qc_ltb (Q2Qc 0) q).
  destruct (Qc_ltb (Q2Qc 0) q) eqn:Hpos.
  - revert Hs. unfold BREWING_SALTS; cbn [In].
    intros [<- | [<- | [<- | [<- | [<- | []]]]]];
      cbn [contributions fold_left];
      repeat match goal with
             | |- context [js_gt (lit ?c) (lit 0)] =>
                 change (js_gt (lit c) (lit 0)) with true
             end;
      cbv iota;
      destruct i;
      cbn [get_ion set_ion Ca Mg Na SO4 Cl HCO3 per_unit contributions
             ion_obj_get Ion_eqb];
      first [ now rewrite (js_mul_comm (Fin q))
            | rewrite js_mul_0_r by reflexivity;
              rewrite (js_div_0_l vol Hvol), js_add_0_r; reflexivity ].
  - rewrite (nonneg_not_pos_is_zero q Hnn Hpos).
    change (Fin (Q2Qc 0)) with (lit 0).
    rewrite js_mul_0_l by (apply per_unit_finite; exact Hs).
    now rewrite (js_div_0_l vol Hvol), js_add_0_r.
Qed.

Lemma achieved_fold_is_model vol qs i :
  js_gt vol (lit 0) = true ->
  (forall s, In s BREWING_SALTS ->
             exists q, to_number (obj_get qs (name s)) = Fin q
                       /\ Qc_leb (Q2Qc 0) q = true) ->
  forall (l : list Salt) (p : WaterProfile),
    (forall s, In s l -> In s BREWING_SALTS) ->
    get_ion (fold_left (applySalt vol qs)
               (map (fun s => (name s, contributions s)) l) p) i
    = fold_left
        (fun acc (s : Salt) =>
           (acc + (to_number (obj_get qs (name s)) * per_unit s i) / vol)%num)
        l (get_ion p i).
Proof.
  intros Hvol Hqs l.
  induction l as [ | s rest IH]; intros p Hin; [reflexivity | ].
  cbn [map fold_left].
  rewrite IH by (intros s' Hs'; apply Hin; now right).
  destruct (Hqs s (Hin s (or_introl eq_refl))) as (q & Hq & Hnn).
  rewrite (applySalt_adds_term vol qs p s i q
             (Hin s (or_introl eq_refl)) Hvol Hq Hnn).
  now rewrite Hq.
Qed.

Lemma achievedProfile_is_model vol base qs i :
  js_gt vol (lit 0) = true ->
  (forall s, In s BREWING_SALTS ->
             exists q, to_number (obj_get qs (name s)) = Fin q
                       /\ Qc_leb (Q2Qc 0) q = true) ->
  get_ion (achievedProfile vol base qs) i = contribution_model base qs vol i.
Proof.
  intros Hvol Hqs. unfold achievedProfile, contribution_model.
  unfold ions; cbn [fold_left]. rewrite !set_get_same.
  rewrite profile_salts_catalog.
  apply achieved_fold_is_model; auto.
Qed.

Lemma component_ok_value (c : option number) :
  component_ok c = true ->
  exists q, js_or c (lit 0) = Fin q /\ Qc_leb (Q2Qc 0) q = true.
Proof.
  destruct c as [[x | | | ] | ]; cbn [component_ok isFinite andb js_or];
    try discriminate.
  - change (js_le (lit 0) (Fin x)) with (Qc_leb (Q2Qc 0) x). intros Hx.
    destruct (truthy (Fin x)); eexists; split; try reflexivity; exact Hx.
  - intros _. eexists; split; reflexivity.
Qed.

Lemma mapSolution_quantities vol base target sol :
  nonneg_solution sol = true ->
  forall s, In s BREWING_SALTS ->
    exists q,
      to_number (obj_get (saltAdditions (mapSolution vol base target sol)) (name s))
      = Fin q
      /\ Qc_leb (Q2Qc 0) q = true.
Proof.
  unfold nonneg_solution; cbn [forallb]. rewrite !andb_true_iff.
  intros (H1 & H2 & H3 & H4 & H5 & _) s.
  unfold mapSolution; cbn [saltAdditions].
  unfold BREWING_SALTS; cbn [In].
  intros [<- | [<- | [<- | [<- | [<- | []]]]]];
    cbn [name obj_get String.eqb Ascii.eqb Bool.eqb to_number];
    apply component_ok_value; assumption.
Qed.

Lemma applySalt_applies vol qs p s i :
  In s BREWING_SALTS ->
  get_ion (applySalt vol qs p (name s, contributions s)) i
  = match ion_obj_get (contributions s) i with
    | Some c =>
        if js_gt (to_number (obj_get qs (name s))) (lit 0)
        then (get_ion p i + (to_number (obj_get qs (name s)) * c) / vol)%num
        else get_ion p i
    | None => get_ion p i
    end.
Proof.
  intros Hs. unfold applySalt; cbn [fst snd].
  destruct (js_gt (to_number (obj_get qs (name s))) (lit 0)).
  - generalize (to_number (obj_get qs (name s))). intros q.
    revert Hs. unfold BREWING_SALTS; cbn [In].
    intros [<- | [<- | [<- | [<- | [<- | []]]]]];
      cbn [contributions fold_left];
      repeat match goal with
             | |- context [js_gt (lit ?c) (lit 0)] =>
                 change (js_gt (lit c) (lit 0)) with true
             end;
      cbv iota;
      destruct i;
      cbn [get_ion set_ion Ca Mg Na SO4 Cl HCO3 contributions
             ion_obj_get Ion_eqb];
      first [ now rewrite (js_mul_comm q) | reflexivity ].
  - destruct (ion_obj_get (contributions s) i); reflexivity.
Qed.

Lemma achievedProfile_applies vol base qs i :
  get_ion (achievedProfile vol base qs) i
  = applied_contribution_model base qs vol i.
Proof.
  unfold achievedProfile, applied_contribution_model.
  unfold ions; cbn [fold_left]. rewrite !set_get_same.
  rewrite profile_salts_catalog.
  assert (Hfold : forall (l : list Salt) (p : WaterProfile),
             (forall s, In s l -> In s BREWING_SALTS) ->
             get_ion (fold_left (applySalt vol qs)
                        (map (fun s => (name s, contributions s)) l) p) i
             = fold_left
                 (fun acc (s : Salt) =>
                    let quantity := to_number (obj_get qs (name s)) in
                    match ion_obj_get (contributions s) i with
                    | Some c =>
                        if js_gt quantity (lit 0)
                        then (acc + (quantity * c) / vol)%num
                        else acc
                    | None => acc
                    end)
                 l (get_ion p i)).
  { induction l as [ | s rest IH]; intros p Hin; [reflexivity | ].
    cbn [map fold_left].
    rewrite IH by (intros s' Hs'; apply Hin; now right).
    now rewrite (applySalt_applies vol qs p s i (Hin s (or_introl eq_refl))). }
  apply Hfold. auto.
Qed.

(** C6.  On every run on which the solver returns a solution, whatever its
    components, the achieved profile reported with full precision is, on
    each ion, the base concentration plus, over the additives whose
    returned quantity is strictly positive, quantity times per-unit
    contribution divided by volume; a returned quantity that is zero,
    negative or [NaN] adds nothing.  Each reported deviation is achieved
    minus target.  When the volume is positive and every returned quantity
    is finite and not negative, this is the sum over all five additives of
    the contribution model, so that applying the returned quantities to the
    base profile gives back the reported achieved profile. *)
Theorem C6_achieved_profile_of_positive_quantities :
  forall env vol base target log sol,
    solver_solution env vol base target = Some sol ->
    exists r,
      optimizeWithQP env vol base target log = (Normal r, log ++ [SolveQPCalled])
      /\ feasible r = true
      /\ (forall i,
            get_ion (calculatedProfile r) i
            = applied_contribution_model base (saltAdditions r) vol i
            /\ get_ion (deviations r) i
               = (get_ion (calculatedProfile r) i - get_ion target i)%num)
      /\ (js_gt vol (lit 0) = true ->
          nonneg_solution sol = true ->
          forall i,
            get_ion (calculatedProfile r) i
            = contribution_model base (saltAdditions r) vol i).
Proof.
  intros env vol base target log sol Hsol.
  exists (mapSolution vol base target sol).
  split; [apply optimizeWithQP_on_solution; exact Hsol | ].
  split; [reflexivity | ].
  split.
  - intros i. split.
    + change (calculatedProfile (mapSolution vol base target sol))
        with (achievedProfile vol base
                (saltAdditions (mapSolution vol base target sol))).
      apply achievedProfile_applies.
    + unfold mapSolution. cbn [deviations calculatedProfile].
      destruct i; cbn [get_ion Ca Mg Na SO4 Cl HCO3]; reflexivity.
  - intros Hvol Hnn i.
    change (calculatedProfile (mapSolution vol base target sol))
      with (achievedProfile vol base
              (saltAdditions (mapSolution vol base target sol))).
    apply achievedProfile_is_model; [exact Hvol | ].
    apply mapSolution_quantities; exact Hnn.
Qed.

Lemma C6_achieved_profile_of_positive_quantities_witness :
  solver_solution (env_returning negative_solution) (lit 20) scenario_base
    scenario_target = Some negative_solution
  /\ exists r,
      optimizeWithQP (env_returning negative_solution) (lit 20) scenario_base
        scenario_target [] = (Normal r, [] ++ [SolveQPCalled])
      /\ feasible r = true
      /\ (forall i,
            get_ion (calculatedProfile r) i
            = applied_contribution_model scenario_base (saltAdditions r) (lit 20) i
            /\ get_ion (deviations r) i
               = (get_ion (calculatedProfile r) i - get_ion scenario_target i)%num)
      /\ (js_gt (lit 20) (lit 0) = true ->
          nonneg_solution negative_solution = true ->
          forall i,
            get_ion (calculatedProfile r) i
            = contribution_model scenario_base (saltAdditions r) (lit 20) i).
Proof.
  split; [vm_compute; reflexivity | ].
  apply (C6_achieved_profile_of_positive_quantities
           (env_returning negative_solution) (lit 20) scenario_base
           scenario_target [] negative_solution).
  vm_compute; reflexivity.
Defined.

(** C6, as stated with the sum over all additives, fails on a run that is
    reported feasible.  The solver answers -1e-10 for gypsum and -5 for
    calcium chloride: the run returns [feasible = true] with both
    quantities in the returned vector, the reported calcium is the base
    value 22, while the contribution model applied to the returned
    quantities gives a negative calcium concentration (22 minus 68.15 and
    a little more). *)
Lemma C6_counterexample :
  exists r,
    optimizeWithQP (env_returning negative_solution) (lit 20) scenario_base
      scenario_target []
    = (Normal r, [SolveQPCalled])
    /\ feasible r = true
    /\ get_ion (calculatedProfile r) IonCa = lit 22
    /\ js_lt (contribution_model scenario_base (saltAdditions r) (lit 20) IonCa)
         (lit 0) = true
    /\ get_ion (calculatedProfile r) IonCa
       <> contribution_model scenario_base (saltAdditions r) (lit 20) IonCa.
Proof.
  exists (mapSolution (lit 20) scenario_base scenario_target negative_solution).
  split.
  - apply (optimizeWithQP_on_solution (env_returning negative_solution) (lit 20)
             scenario_base scenario_target [] negative_solution).
    vm_compute; reflexivity.
  - split; [unfold mapSolution; cbn [feasible]; reflexivity | ].
    pose (X := get_ion
                 (calculatedProfile
                    (mapSolution (lit 20) scenario_base scenario_target
                       negative_solution)) IonCa).
    pose (Y := contribution_model scenario_base
                 (saltAdditions
                    (mapSolution (lit 20) scenario_base scenario_target
                       negative_solution)) (lit 20) IonCa).
    assert (Hca : X = lit 22) by (vm_compute; reflexivity).
    assert (Hneg : js_lt Y (lit 0) = true) by (vm_compute; reflexivity).
    fold X Y. clearbody X Y.
    split; [exact Hca | split; [exact Hneg | ]].
    intros E. rewrite <- E, Hca in Hneg. vm_compute in Hneg. discriminate.
Qed.


(** ** The matrices of the quadratic program *)

Lemma A_shape vol base target :
  A (buildQuadprogMatrices vol base target) = M_spec vol.
Proof. cbv -[js_add js_mul js_div js_sub]. reflexivity. Qed.

Lemma H_shape vol base target :
  H (buildQuadprogMatrices vol base target) = H_spec vol.
Proof. cbv -[js_add js_mul js_div js_sub]. reflexivity. Qed.

Lemma M_spec_entry vol k i ion s :
  nth_error ions k = Some ion ->
  nth_error BREWING_SALTS i = Some s ->
  mat_get (M_spec vol) (S k) (S i) = contribution_entry vol s ion.
Proof.
  intros Hk Hi.
  do 6 (destruct k as [ | k];
        [ cbn in Hk; injection Hk as <-;
          do 5 (destruct i as [ | i];
                [cbn in Hi; injection Hi as <-; reflexivity | ]);
          destruct i; discriminate
        | ]).
  destruct k; discriminate.
Qed.

Lemma H_spec_entry vol i j s t :
  nth_error BREWING_SALTS i = Some s ->
  nth_error BREWING_SALTS j = Some t ->
  mat_get (H_spec vol) (S i) (S j) = (lit 2 * gram vol s t)%num.
Proof.
  intros Hi Hj.
  do 5 (destruct i as [ | i];
        [ cbn in Hi; injection Hi as <-;
          do 5 (destruct j as [ | j];
                [cbn in Hj; injection Hj as <-; reflexivity | ]);
          destruct j; discriminate
        | ]).
  destruct i; discriminate.
Qed.



(** *** Positive semi-definiteness *)

Lemma Qc_leb_true (a b : Qc) : (a <= b)%Qc -> Qc_leb a b = true.
Proof.
  intros Hle. pose proof (proj1 (Qcle_alt a b) Hle) as Hc.
  unfold Qc_leb. destruct (Qccompare a b); congruence.
Qed.





Lemma gram_Fin vol s t (a b : Ion -> Qc) :
  (forall i, contribution_entry vol s i = Fin (a i)) ->
  (forall i, contribution_entry vol t i = Fin (b i)) ->
  gram vol s t = Fin (gram_q a b).
Proof.
  intros Ha Hb. unfold gram, gram_q.
  change (lit 0) with (Fin (Q2Qc 0)). generalize (Q2Qc 0).
  induction ions as [ | i rest IH]; intros acc; [reflexivity | ].
  cbn [fold_left]. rewrite Ha, Hb. cbn [js_mul js_add]. apply IH.
Qed.

(** For a positive volume every entry of M is a finite number. *)
Lemma entries_finite vol :
  js_gt vol (lit 0) = true ->
  exists a : Salt -> Ion -> Qc,
    forall s i, In s BREWING_SALTS -> contribution_entry vol s i = Fin (a s i).
Proof.
  destruct vol as [v | | | ]; try discriminate.
  - intros Hv.
    exists (fun s i =>
              match ion_obj_get (contributions s) i with
              | Some (Fin c) => (c / v)%Qc
              | _ => Q2Qc 0
              end).
    intros s i. unfold BREWING_SALTS; cbn [In].
    intros [<- | [<- | [<- | [<- | [<- | []]]]]]; destruct i;
      unfold contribution_entry;
      cbn [contributions ion_obj_get Ion_eqb lit];
      first [reflexivity | apply js_div_Fin_pos; exact Hv].
  - intros _. exists (fun _ _ => Q2Qc 0).
    intros s i. unfold BREWING_SALTS; cbn [In].
    intros [<- | [<- | [<- | [<- | [<- | []]]]]]; destruct i; reflexivity.
Qed.

Lemma salt_at_in (i : nat) :
  (1 <= i <= 5)%nat -> In (salt_at i) BREWING_SALTS.
Proof.
  intros Hi. unfold salt_at. apply nth_In. cbn. lia.
Qed.

Lemma quad_form_H_spec vol (a : Salt -> Ion -> Qc) (x : list Qc) :
  (forall s i, In s BREWING_SALTS -> contribution_entry vol s i = Fin (a s i)) ->
  quad_form (H_spec vol) x
  = Fin (quad_q (fun i => a (salt_at i)) (fun i => nth i x (Q2Qc 0))).
Proof.
  intros Ha.
  assert (HE : forall i j,
             (i < 5)%nat -> (j < 5)%nat ->
             mat_get (H_spec vol) (S i) (S j)
             = Fin (Q2Qc 2 * gram_q (a (salt_at (S i))) (a (salt_at (S j))))%Qc).
  { intros i j Hi Hj.
    assert (Ei : nth_error BREWING_SALTS i = Some (salt_at (S i))).
    { do 5 (destruct i as [ | i]; [reflexivity | ]). lia. }
    assert (Ej : nth_error BREWING_SALTS j = Some (salt_at (S j))).
    { do 5 (destruct j as [ | j]; [reflexivity | ]). lia. }
    rewrite (H_spec_entry vol i j _ _ Ei Ej).
    rewrite (gram_Fin vol _ _ (a (salt_at (S i))) (a (salt_at (S j)))).
    - reflexivity.
    - intros k. apply Ha, salt_at_in. lia.
    - intros k. apply Ha, salt_at_in. lia. }
  unfold quad_form, quad_q. cbn [seq fold_left].
  rewrite !HE by lia.
  reflexivity.
Qed.

(** ** What the mapper does with a negative amount

    The achieved-profile loop is guarded by [amount > 0]: an amount that is
    zero, negative or [NaN] leaves the profile as it is, although the
    amount itself stays in the returned vector. *)

Lemma applySalt_skips vol qs p salt :
  js_gt (to_number (obj_get qs (fst salt))) (lit 0) = false ->
  applySalt vol qs p salt = p.
Proof. intros Hskip. unfold applySalt. now rewrite Hskip. Qed.

Example negative_amounts_leave_calcium_alone :
  exists r,
    optimizeWithQP (env_returning negative_solution) (lit 20) scenario_base
      scenario_target [] = (Normal r, [SolveQPCalled])
    /\ shown (saltAdditions r)
       = [("Gypsum (CaSO4)", "-0.0000000001"); ("Calcium Chloride (CaCl2)", "-5");
          ("Epsom Salt (MgSO4)", "0"); ("Table Salt (NaCl)", "0.04");
          ("Baking Soda (NaHCO3)", "0")]
    /\ shown_profile (calculatedProfile r)
       = ["22"; "2.7"; "12.7868"; "6"; "15.2132"; "50"].
Proof. eexists. repeat split; vm_compute; reflexivity. Qed.

(* ================================================================== *)
(** * Further properties of the code *)

(** ** Order on the number model *)

Lemma Qc_leb_iff (a b : Qc) : Qc_leb a b = true <-> (this a <= this b)%Q.
Proof.
  unfold Qc_leb, Qccompare. rewrite Qle_alt.
  destruct (Qcompare a b); split; congruence.
Qed.

Lemma Qc_ltb_iff (a b : Qc) : Qc_ltb a b = true <-> (this a < this b)%Q.
Proof.
  unfold Qc_ltb, Qccompare. rewrite Qlt_alt.
  destruct (Qcompare a b); split; congruence.
Qed.

Lemma Qc_ltb_negb_leb (a b : Qc) : Qc_ltb a b = negb (Qc_leb b a).
Proof.
  unfold Qc_ltb, Qc_leb, Qccompare.
  rewrite <- (Qcompare_antisym a b).
  destruct (Qcompare a b); reflexivity.
Qed.

Lemma finite_is_Fin (x : number) : isFinite x = true -> x = Fin (to_Qc x).
Proof. destruct x; try discriminate; reflexivity. Qed.

(** ** validator.ts *)

Lemma out_of_range_test (i : Ion) (q : Qc) :
  js_lt (Fin q) (min (VALIDATION_RANGES_ions i))
  || js_gt (Fin q) (max (VALIDATION_RANGES_ions i))
  = negb (ion_in_range i (Fin q)).
Proof.
  unfold ion_in_range, js_gt.
  destruct i; cbn [VALIDATION_RANGES_ions min max lit js_lt js_le isFinite andb];
    rewrite !Qc_ltb_negb_leb, negb_andb; reflexivity.
Qed.

Lemma validateWaterProfile_errors_count (p : WaterProfile) (ty : string) :
  List.length (errors (validateWaterProfile p ty))
  = List.length
      (filter (fun i => negb (ion_in_range i (get_ion p i))) requiredIons).
Proof.
  unfold validateWaterProfile; cbn [errors].
  match goal with
  | |- context [fold_left ?f requiredIons []] => set (step := f)
  end.
  assert (Hgen : forall l errs,
             List.length (fold_left step l errs)
             = (List.length errs
                + List.length
                    (filter (fun i => negb (ion_in_range i (get_ion p i))) l))%nat).
  { intros l. induction l as [ | i rest IH]; intros errs; cbn [fold_left filter].
    - now rewrite Nat.add_0_r.
    - rewrite IH. unfold step.
      destruct (get_ion p i) as [q | | | ] eqn:E;
        cbn [isFinite negb];
        try (cbn [ion_in_range isFinite andb negb List.length];
             rewrite length_app; cbn [List.length]; lia).
      rewrite out_of_range_test.
      destruct (ion_in_range i (Fin q)); cbn [negb List.length];
        [ | rewrite length_app; cbn [List.length]]; lia. }
  apply Hgen.
Qed.

Lemma no_offender_iff (ok : Ion -> bool) (l : list Ion) :
  Nat.eqb (List.length (filter (fun i => negb (ok i)) l)) 0 = forallb ok l.
Proof.
  induction l as [ | i rest IH]; [reflexivity | ].
  cbn [filter forallb]. destruct (ok i); cbn [negb andb List.length]; auto.
Qed.

Lemma requiredIons_complete (i : Ion) : In i requiredIons.
Proof. destruct i; cbn; tauto. Qed.

Lemma valid_is_no_error (p : WaterProfile) (ty : string) :
  valid (validateWaterProfile p ty)
  = Nat.eqb (List.length (errors (validateWaterProfile p ty))) 0.
Proof. reflexivity. Qed.

Lemma validateWaterProfile_valid (p : WaterProfile) (ty : string) :
  valid (validateWaterProfile p ty) = profile_in_range p.
Proof.
  change (valid (validateWaterProfile p ty))
    with (Nat.eqb (List.length (errors (validateWaterProfile p ty))) 0).
  rewrite validateWaterProfile_errors_count.
  apply (no_offender_iff (fun i => ion_in_range i (get_ion p i))).
Qed.

(** X1.  [validateWaterProfile] reports one message per offending ion and
    nothing else: the number of its errors is the number of ions whose
    value is not a finite number inside the range of the ion, and the
    profile is valid exactly when every ion is finite and inside its
    range. *)
Theorem X1_validateWaterProfile_accepts_exactly_in_range :
  forall (p : WaterProfile) (ty : string),
    List.length (errors (validateWaterProfile p ty))
    = List.length
        (filter (fun i => negb (ion_in_range i (get_ion p i))) requiredIons)
    /\ (valid (validateWaterProfile p ty) = true
        <-> forall i : Ion,
            isFinite (get_ion p i) = true
            /\ js_le (min (VALIDATION_RANGES_ions i)) (get_ion p i) = true
            /\ js_le (get_ion p i) (max (VALIDATION_RANGES_ions i)) = true).
Proof.
  intros p ty. split; [apply validateWaterProfile_errors_count | ].
  rewrite validateWaterProfile_valid. unfold profile_in_range. rewrite forallb_forall.
  split.
  - intros Hall i. specialize (Hall i (requiredIons_complete i)).
    unfold ion_in_range in Hall. rewrite !andb_true_iff in Hall. tauto.
  - intros Hall i _. unfold ion_in_range. rewrite !andb_true_iff.
    specialize (Hall i). tauto.
Qed.

Lemma volume_errors_empty (vol : number) :
  (if negb (isFinite vol) then ["volume must be a valid number"]
   else if js_le vol (lit 0) then ["volume must be positive"]
   else if js_lt vol (min VALIDATION_RANGES_volume)
           || js_gt vol (max VALIDATION_RANGES_volume)
        then [("volume must be between " ++ show_number (min VALIDATION_RANGES_volume)
                 ++ " and " ++ show_number (max VALIDATION_RANGES_volume)
                 ++ " liters")%string]
        else [])
  = [] <-> volume_in_range vol = true.
Proof.
  unfold volume_in_range, js_gt.
  destruct vol as [q | | | ]; cbn [isFinite negb andb];
    try (split; discriminate).
  cbn [VALIDATION_RANGES_volume min max lit js_le js_lt].
  rewrite !Qc_ltb_negb_leb.
  destruct (Qc_leb q (Q2Qc 0)) eqn:E0.
  - split; [discriminate | ]. intros Hr. exfalso.
    apply andb_true_iff in Hr. destruct Hr as [Hlo _].
    apply Qc_leb_iff in E0. apply Qc_leb_iff in Hlo.
    change (this (Q2Qc 0)) with 0%Q in E0.
    change (this (Q2Qc 0.1)) with (1 # 10)%Q in Hlo.
    generalize dependent (this q). intros y H0 Hlo. lra.
  - destruct (Qc_leb (Q2Qc 0.1) q), (Qc_leb q (Q2Qc 1000));
      cbn [negb orb andb]; split; congruence.
Qed.

Lemma validateInputs_valid_in_range (vol : number) (base target : WaterProfile) :
  valid (validateInputs vol base target)
  = volume_in_range vol && profile_in_range base && profile_in_range target.
Proof.
  unfold validateInputs. cbn [valid].
  match goal with
  | |- Nat.eqb (List.length (?ev ++ _ ++ _)) 0 = _ =>
      pose proof (volume_errors_empty vol) as Hvol;
      destruct ev as [ | e rest] eqn:Ev
  end.
  - rewrite (proj1 Hvol eq_refl). cbn [app andb].
    rewrite <- (validateWaterProfile_valid base "base").
    rewrite <- (validateWaterProfile_valid target "target").
    rewrite !valid_is_no_error, length_app.
    destruct (List.length (errors (validateWaterProfile base "base")));
      destruct (List.length (errors (validateWaterProfile target "target")));
      reflexivity.
  - destruct (volume_in_range vol); [ | reflexivity].
    destruct Hvol as [_ Hvol]. specialize (Hvol eq_refl). discriminate.
Qed.

Lemma volume_in_range_positive (vol : number) :
  volume_in_range vol = true -> js_gt vol (lit 0) = true.
Proof.
  intros Hvol.
  unfold volume_in_range in Hvol. rewrite !andb_true_iff in Hvol.
  destruct Hvol as [[Hfin Hlo] _].
  destruct vol as [q | | | ]; try discriminate.
  cbn [VALIDATION_RANGES_volume min lit js_le] in Hlo.
  change (js_gt (Fin q) (lit 0)) with (Qc_ltb (Q2Qc 0) q).
  apply Qc_ltb_iff. apply Qc_leb_iff in Hlo.
  change (this (Q2Qc 0)) with 0%Q.
  change (this (Q2Qc 0.1)) with (1 # 10)%Q in Hlo.
  generalize dependent (this q). intros y Hlo. lra.
Qed.

Lemma profile_in_range_finite (p : WaterProfile) :
  profile_in_range p = true -> profile_finite p = true.
Proof.
  unfold profile_in_range, profile_finite. rewrite !forallb_forall.
  intros Hall i Hi. specialize (Hall i Hi). unfold ion_in_range in Hall.
  rewrite !andb_true_iff in Hall. apply Hall.
Qed.

(** X2.  [validateInputs] accepts exactly the inputs whose volume is a
    finite number between 0.1 and 1000 and whose two profiles have every
    ion finite and inside its range; every accepted input therefore has a
    positive volume. *)
Theorem X2_validateInputs_accepts_exactly_in_range :
  forall (vol : number) (base target : WaterProfile),
    valid (validateInputs vol base target)
    = volume_in_range vol && profile_in_range base && profile_in_range target
    /\ (valid (validateInputs vol base target) = true ->
        js_gt vol (lit 0) = true).
Proof.
  intros vol base target.
  split; [apply validateInputs_valid_in_range | ].
  rewrite validateInputs_valid_in_range, !andb_true_iff. intros [[Hvol _] _].
  now apply volume_in_range_positive.
Qed.

(** ** The matrices of the problem, on validated volumes *)



(** ** Control flow: what returns, what throws, how often the solver runs *)

(** X3.  [optimizeWithQP] never throws: it returns the mapped solution
    with [feasible = true] when the solver hands back a solution, and the
    infeasible fallback with [feasible = false] in every other case. *)
Theorem X3_optimizeWithQP_always_returns :
  forall env vol base target log,
  exists r log',
    optimizeWithQP env vol base target log = (Normal r, log')
    /\ feasible r = is_some (solver_solution env vol base target)
    /\ r = match solver_solution env vol base target with
           | Some sol => mapSolution vol base target sol
           | None => infeasibleResult base target
           end.
Proof.
  intros env vol base target log.
  destruct (solver_solution env vol base target) as [sol | ] eqn:E.
  - exists (mapSolution vol base target sol), (log ++ [SolveQPCalled]).
    split; [now apply optimizeWithQP_on_solution | split; reflexivity].
  - destruct (optimizeWithQP_on_failure env vol base target log E)
      as (e & log' & Hrun).
    eexists; eexists; split; [exact Hrun | split; reflexivity].
Qed.

(** X4.  [optimizeSaltAdditions] has two outcomes only.  What it returns
    is the result of [optimizeWithQP] with [feasible = true] and
    [iterations = 1]; what it throws is the error 'Unable to find a
    feasible solution for the target water profile', and it throws exactly
    when the solver gave no solution. *)
Theorem X4_optimizeSaltAdditions_outcomes :
  forall env vol base target log,
    (forall r log',
        optimizeSaltAdditions env vol base target log = (Normal r, log') ->
        feasible r = true /\ iterations r = Some 1%nat
        /\ exists sol,
            solver_solution env vol base target = Some sol
            /\ saltAdditions r = saltAdditions (mapSolution vol base target sol)
            /\ calculatedProfile r
               = calculatedProfile (mapSolution vol base target sol))
    /\ (forall e log',
           optimizeSaltAdditions env vol base target log = (Thrown e, log') ->
           e = Error infeasible_message
           /\ solver_solution env vol base target = None).
Proof.
  intros env vol base target log.
  destruct (solver_solution env vol base target) as [sol | ] eqn:E.
  - pose proof (optimizeSaltAdditions_on_solution env vol base target log sol E)
      as Hrun. cbv zeta in Hrun.
    split.
    + intros r log' Hr. rewrite Hrun in Hr. injection Hr as <- <-.
      cbn [feasible iterations saltAdditions calculatedProfile].
      split; [reflexivity | split; [reflexivity | ]].
      exists sol. repeat split.
    + intros e log' Hr. rewrite Hrun in Hr. discriminate.
  - destruct (optimizeSaltAdditions_on_failure env vol base target log E)
      as (log1 & Hrun).
    split.
    + intros r log' Hr. rewrite Hrun in Hr. discriminate.
    + intros e log' Hr. rewrite Hrun in Hr. injection Hr as <- <-.
      split; reflexivity.
Qed.

Lemma calculateWaterAdditions_on_failure env vol base target log :
  valid (validateInputs vol base target) = true ->
  solver_solution env vol base target = None ->
  exists log',
    calculateWaterAdditions env (mkCalculationInput vol base target) log
    = (Normal
         {| success := false;
            error := Some ("Calculation error: " ++ infeasible_message)%string;
            additions := createEmptyAdditions;
            calculated_profile := base;
            result_deviations := createZeroDeviations;
            total_salt_weight := lit 0;
            brewing_analysis := calculateBrewingAnalysis base |},
       log').
Proof.
  intros Hv Hfail.
  destruct (optimizeSaltAdditions_on_failure env vol base target log Hfail)
    as (log1 & E).
  unfold calculateWaterAdditions, try_catch.
  cbn [volume_liters base_profile target_profile].
  rewrite Hv. cbn [negb].
  rewrite (bind_thrown _ _ _ _ _ E).
  eexists. reflexivity.
Qed.

Lemma calculateWaterAdditions_success env vol base target log sol :
  valid (validateInputs vol base target) = true ->
  solver_solution env vol base target = Some sol ->
  exists cr,
    calculateWaterAdditions env (mkCalculationInput vol base target) log
    = (Normal cr, log ++ [SolveQPCalled])
    /\ success cr = true
    /\ error cr = None.
Proof.
  intros Hv Hsol.
  unfold calculateWaterAdditions, try_catch.
  cbn [volume_liters base_profile target_profile].
  rewrite Hv. cbn [negb].
  rewrite (bind_normal _ _ _ _ _
             (optimizeSaltAdditions_on_solution env vol base target log sol Hsol)).
  unfold ret. eexists; split; [reflexivity | split; reflexivity].
Qed.

(** X5.  [calculateWaterAdditions] never throws.  It reports success
    exactly when the input passes validation and the solver hands back a
    solution, and then without an error message.  Every failure, whether
    of validation or of the solver, has the same shape: an error message,
    all five additions zero, the base profile as calculated profile, all
    deviations zero, total weight zero and the analysis of the base
    profile. *)
Theorem X5_calculateWaterAdditions_always_returns :
  forall env input log,
  exists r log',
    calculateWaterAdditions env input log = (Normal r, log')
    /\ success r
       = valid (validateInputs (volume_liters input) (base_profile input)
                  (target_profile input))
         && is_some (solver_solution env (volume_liters input)
                       (base_profile input) (target_profile input))
    /\ (success r = true -> error r = None)
    /\ (success r = false ->
        is_some (error r) = true
        /\ additions r = createEmptyAdditions
        /\ calculated_profile r = base_profile input
        /\ result_deviations r = createZeroDeviations
        /\ total_salt_weight r = lit 0
        /\ brewing_analysis r = calculateBrewingAnalysis (base_profile input)).
Proof.
  intros env [vol base target] log.
  cbn [volume_liters base_profile target_profile].
  destruct (valid (validateInputs vol base target)) eqn:Hv.
  - destruct (solver_solution env vol base target) as [sol | ] eqn:Hs.
    + destruct (calculateWaterAdditions_success env vol base target log sol
                  Hv Hs) as (cr & Hrun & Hok & Herr).
      exists cr, (log ++ [SolveQPCalled]).
      split; [exact Hrun | ]. rewrite Hok. split; [reflexivity | ].
      split; [intros _; exact Herr | discriminate].
    + destruct (calculateWaterAdditions_on_failure env vol base target log Hv Hs)
        as (log' & Hrun).
      eexists; eexists; split; [exact Hrun | ].
      cbn [success error additions calculated_profile result_deviations
             total_salt_weight brewing_analysis is_some andb].
      repeat split; discriminate.
  - eexists; eexists; split.
    + apply calculateWaterAdditions_invalid.
      cbn [volume_liters base_profile target_profile]. exact Hv.
    + cbn [success error additions calculated_profile result_deviations
             total_salt_weight brewing_analysis is_some andb].
      repeat split; discriminate.
Qed.

Lemma solver_calls_app (l1 l2 : list Event) :
  solver_calls (l1 ++ l2) = (solver_calls l1 + solver_calls l2)%nat.
Proof. unfold solver_calls. now rewrite filter_app, length_app. Qed.

Lemma optimizeWithQP_solver_calls env vol base target log :
  solver_calls (snd (optimizeWithQP env vol base target log))
  = (solver_calls log + if import_ok env then 1 else 0)%nat.
Proof.
  unfold optimizeWithQP, import_ok, try_catch, bind, lift, call_solveQP,
    throw, ret, emit.
  generalize (buildQuadprogMatrices vol base target); intros m.
  destruct (import_quadprog env) as [solveQP | e0]; cbn [snd].
  - destruct (solveQP _ _ _ _ _) as [[r | ] | e1]; cbn [snd];
      [destruct (solution r); cbn [snd] | | ];
      rewrite ?solver_calls_app; cbn [solver_calls filter List.length]; lia.
  - rewrite solver_calls_app. cbn [solver_calls filter List.length]. lia.
Qed.

(** X6.  One call of [calculateWaterAdditions] invokes the QP solver at
    most once: exactly once when the input is valid and the solver library
    could be imported, and not at all otherwise.  There is no retry. *)
Theorem X6_solver_invoked_at_most_once :
  forall env input log,
    solver_calls (snd (calculateWaterAdditions env input log))
    = (solver_calls log
       + if valid (validateInputs (volume_liters input) (base_profile input)
                     (target_profile input))
            && import_ok env
         then 1 else 0)%nat.
Proof.
  intros env [vol base target] log.
  cbn [volume_liters base_profile target_profile].
  pose proof (optimizeWithQP_solver_calls env vol base target log) as Hq.
  unfold calculateWaterAdditions, try_catch.
  cbn [volume_liters base_profile target_profile].
  destruct (valid (validateInputs vol base target)); cbn [negb andb].
  - unfold optimizeSaltAdditions, bind, throw, ret, emit.
    destruct (optimizeWithQP env vol base target log) as [[r | e] l1];
      cbn [snd] in Hq.
    + destruct (feasible r); cbn [negb snd];
        rewrite ?solver_calls_app, Hq;
        cbn [solver_calls filter List.length]; lia.
    + cbn [snd]. rewrite solver_calls_app, Hq.
      cbn [solver_calls filter List.length]. lia.
  - unfold ret. cbn [snd]. lia.
Qed.

(** ** The rest of the problem builder *)

Lemma needed_shape vol base target :
  needed (buildQuadprogMatrices vol base target) = needed_spec base target.
Proof. cbv -[js_add js_mul js_div js_sub]. reflexivity. Qed.

Lemma dvec_shape vol base target :
  dvec (buildQuadprogMatrices vol base target) = dvec_spec vol base target.
Proof. cbv -[js_add js_mul js_div js_sub]. reflexivity. Qed.

Lemma Amat_shape vol base target :
  Amat (buildQuadprogMatrices vol base target)
  = [ [lit 0; lit 0; lit 0; lit 0; lit 0; lit 0];
      [lit 0; lit 1; lit 0; lit 0; lit 0; lit 0];
      [lit 0; lit 0; lit 1; lit 0; lit 0; lit 0];
      [lit 0; lit 0; lit 0; lit 1; lit 0; lit 0];
      [lit 0; lit 0; lit 0; lit 0; lit 1; lit 0];
      [lit 0; lit 0; lit 0; lit 0; lit 0; lit 1] ].
Proof. cbv -[js_add js_mul js_div js_sub]. reflexivity. Qed.

Lemma bvec_shape vol base target :
  bvec (buildQuadprogMatrices vol base target)
  = [lit 0; lit 0; lit 0; lit 0; lit 0; lit 0].
Proof. cbv -[js_add js_mul js_div js_sub]. reflexivity. Qed.

(** X7.  The constraints that [buildQuadprogMatrices] hands to the solver
    say that every additive quantity is at least zero, and nothing more:
    whatever the volume and the profiles, a real vector satisfies
    Amat^T x >= bvec exactly when its five components are non-negative
    (there is no upper bound, solubility included). *)
Theorem X7_constraints_are_nonnegativity :
  forall vol base target (x : list Qc),
    constraints_hold (buildQuadprogMatrices vol base target) x
    = forallb (fun j => Qc_leb (Q2Qc 0) (nth j x (Q2Qc 0))) (seq 1 5).
Proof.
  intros vol base target x.
  unfold constraints_hold, constraint_lhs.
  rewrite Amat_shape, bvec_shape.
  cbn [seq forallb fold_left mat_get arr_get nth_error to_number].
  unfold js_ge, lit. cbn [js_mul js_add js_le].
  repeat (apply (f_equal2 andb); [apply f_equal; ring | ]).
  reflexivity.
Qed.

Lemma profile_finite_ion (p : WaterProfile) (i : Ion) :
  profile_finite p = true -> get_ion p i = Fin (to_Qc (get_ion p i)).
Proof.
  unfold profile_finite. rewrite forallb_forall. intros Hall.
  apply finite_is_Fin, Hall, requiredIons_complete.
Qed.

Lemma dvec_entry_Fin vol base target s (a : Ion -> Qc) :
  (forall i, contribution_entry vol s i = Fin (a i)) ->
  profile_finite base = true ->
  profile_finite target = true ->
  dvec_entry vol base target s
  = Fin (Q2Qc 2
         * gram_q a (fun i => to_Qc (get_ion target i) - to_Qc (get_ion base i)))%Qc.
Proof.
  intros Ha Hb Ht. unfold dvec_entry, gram_q.
  change (lit 2) with (Fin (Q2Qc 2)). change (lit 0) with (Fin (Q2Qc 0)).
  assert (Hfold : forall l acc,
             fold_left
               (fun sum i =>
                  (sum + contribution_entry vol s i
                         * (get_ion target i - get_ion base i))%num) l (Fin acc)
             = Fin (fold_left
                      (fun sum i =>
                         (sum + a i * (to_Qc (get_ion target i)
                                       - to_Qc (get_ion base i)))%Qc) l acc)).
  { induction l as [ | i rest IH]; intros acc; [reflexivity | ].
    cbn [fold_left]. rewrite Ha.
    rewrite (profile_finite_ion base i Hb), (profile_finite_ion target i Ht).
    cbn [js_sub js_neg js_add js_mul to_Qc]. apply IH. }
  rewrite Hfold. reflexivity.
Qed.

Lemma dvec_spec_entry vol base target i s :
  nth_error BREWING_SALTS i = Some s ->
  arr_get (dvec_spec vol base target) (S i) = Some (dvec_entry vol base target s).
Proof.
  intros Hi.
  do 5 (destruct i as [ | i]; [cbn in Hi; injection Hi as <-; reflexivity | ]).
  destruct i; discriminate.
Qed.

Lemma needed_spec_entry base target k ion :
  nth_error ions k = Some ion ->
  arr_get (needed_spec base target) (S k)
  = Some (get_ion target ion - get_ion base ion)%num.
Proof.
  intros Hk.
  do 6 (destruct k as [ | k]; [cbn in Hk; injection Hk as <-; reflexivity | ]).
  destruct k; discriminate.
Qed.

Lemma gram_q_zero_r (a : Ion -> Qc) (n : Ion -> Qc) :
  (forall i, n i = Q2Qc 0) -> gram_q a n = Q2Qc 0.
Proof.
  intros Hn. unfold gram_q. generalize ions. intros l.
  induction l as [ | i rest IH]; [reflexivity | ].
  cbn [fold_left]. rewrite Hn.
  replace (Q2Qc 0 + a i * Q2Qc 0)%Qc with (Q2Qc 0) by ring. exact IH.
Qed.

(** X8.  [buildQuadprogMatrices] stores target minus base in [needed] and
    twice Mt needed in [dvec], entry by entry.  When the target profile is
    the base profile itself (finite values, a volume that validation
    accepts) nothing is needed and the linear term of the objective
    vanishes on every additive. *)
Theorem X8_linear_term :
  forall vol base target,
    let m := buildQuadprogMatrices vol base target in
    (forall k ion,
        nth_error ions k = Some ion ->
        arr_get (needed m) (S k) = Some (get_ion target ion - get_ion base ion)%num)
    /\ (forall i s,
           nth_error BREWING_SALTS i = Some s ->
           arr_get (dvec m) (S i) = Some (dvec_entry vol base target s))
    /\ (volume_in_range vol = true ->
        profile_finite base = true ->
        target = base ->
        forall i s,
          nth_error BREWING_SALTS i = Some s ->
          arr_get (dvec m) (S i) = Some (lit 0)).
Proof.
  intros vol base target m. subst m.
  rewrite needed_shape, dvec_shape.
  split; [intros k ion; apply needed_spec_entry | ].
  split; [intros i s; apply dvec_spec_entry | ].
  intros Hrange Hfin -> i s Hi.
  pose proof (volume_in_range_positive vol Hrange) as Hvol.
  rewrite (dvec_spec_entry vol base base i s Hi). f_equal.
  destruct (entries_finite vol Hvol) as (a & Ha).
  rewrite (dvec_entry_Fin vol base base s (a s)); auto.
  - rewrite gram_q_zero_r.
    + unfold lit. apply f_equal. ring.
    + intros j. ring.
  - intros j. apply Ha. eapply nth_error_In; eassumption.
Qed.

Lemma X8_linear_term_witness :
  volume_in_range (lit 20) = true
  /\ profile_finite scenario_base = true
  /\ forall i s,
      nth_error BREWING_SALTS i = Some s ->
      arr_get (dvec (buildQuadprogMatrices (lit 20) scenario_base scenario_base))
        (S i) = Some (lit 0).
Proof.
  split; [reflexivity | split; [reflexivity | ]].
  apply (X8_linear_term (lit 20) scenario_base scenario_base);
    reflexivity.
Defined.

(** *** The objective is the squared error *)

Lemma two_is_one_plus_one : Q2Qc 2 = (Q2Qc 1 + Q2Qc 1)%Qc.
Proof. apply Qc_is_canon. reflexivity. Qed.

Lemma half_of_double (y : Qc) : (Q2Qc 0.5 * ((Q2Qc 1 + Q2Qc 1) * y))%Qc = y.
Proof.
  rewrite Qcmult_assoc.
  replace (Q2Qc 0.5 * (Q2Qc 1 + Q2Qc 1))%Qc with (Q2Qc 1)
    by (apply Qc_is_canon; reflexivity).
  apply Qcmult_1_l.
Qed.

(** Over the rationals: |A x - n|^2 = 1/2 xt (2 AtA) x - (2 At n)t x + |n|^2. *)
Lemma least_squares_q (a : nat -> Ion -> Qc) (n : Ion -> Qc) (x : nat -> Qc) :
  fold_left
    (fun acc i =>
       let r := (fold_left (fun s j => s + a j i * x j) (seq 1 5) (Q2Qc 0) - n i)%Qc in
       (acc + r * r)%Qc)
    ions (Q2Qc 0)
  = (Q2Qc 0.5 * quad_q a x
     - fold_left (fun acc j => acc + (Q2Qc 2 * gram_q (a j) n) * x j)
         (seq 1 5) (Q2Qc 0)
     + fold_left (fun acc i => acc + n i * n i) ions (Q2Qc 0))%Qc.
Proof.
  assert (Hq : quad_q a x
               = ((Q2Qc 1 + Q2Qc 1)
                  * fold_left
                      (fun acc i =>
                         let r := fold_left (fun s j => s + a j i * x j)
                                    (seq 1 5) (Q2Qc 0) in
                         acc + r * r)
                      ions (Q2Qc 0))%Qc).
  { unfold quad_q, gram_q, ions. cbn [fold_left seq].
    rewrite two_is_one_plus_one. ring. }
  rewrite Hq, half_of_double.
  unfold gram_q, ions. cbn [fold_left seq].
  rewrite two_is_one_plus_one. ring.
Qed.

Lemma salt_at_nth (i : nat) :
  (i < 5)%nat -> nth_error BREWING_SALTS i = Some (salt_at (S i)).
Proof. intros Hi. do 5 (destruct i as [ | i]; [reflexivity | ]). lia. Qed.

Lemma ion_at_nth (k : nat) :
  (k < 6)%nat -> nth_error ions k = Some (ion_at (S k)).
Proof. intros Hk. do 6 (destruct k as [ | k]; [reflexivity | ]). lia. Qed.

(** X9.  The quadratic program built by [buildQuadprogMatrices] is the
    least-squares problem: for a positive volume and finite profiles, and
    for every real vector x, the squared norm of A x - needed equals the
    objective 1/2 xt H x - dvec^T x that the solver minimises, plus the
    squared norm of needed, which does not depend on x. *)
Theorem X9_objective_is_squared_error :
  forall vol base target (x : list Qc),
    js_gt vol (lit 0) = true ->
    profile_finite base = true ->
    profile_finite target = true ->
    let m := buildQuadprogMatrices vol base target in
    squared_error m x = (qp_objective m x + needed_norm m)%num.
Proof.
  intros vol base target x Hvol Hb Ht m. subst m.
  destruct (entries_finite vol Hvol) as (a & Ha).
  pose (n := fun i : Ion => (to_Qc (get_ion target i) - to_Qc (get_ion base i))%Qc).
  assert (HA : forall k i, (k < 6)%nat -> (i < 5)%nat ->
               mat_get (M_spec vol) (S k) (S i)
               = Fin (a (salt_at (S i)) (ion_at (S k)))).
  { intros k i Hk Hi.
    rewrite (M_spec_entry vol k i _ _ (ion_at_nth k Hk) (salt_at_nth i Hi)).
    apply Ha, salt_at_in. lia. }
  assert (HN : forall k, (k < 6)%nat ->
               to_number (arr_get (needed_spec base target) (S k))
               = Fin (n (ion_at (S k)))).
  { intros k Hk.
    rewrite (needed_spec_entry base target k _ (ion_at_nth k Hk)).
    cbn [to_number].
    rewrite (profile_finite_ion base _ Hb), (profile_finite_ion target _ Ht).
    reflexivity. }
  assert (HD : forall j, (j < 5)%nat ->
               to_number (arr_get (dvec_spec vol base target) (S j))
               = Fin (Q2Qc 2 * gram_q (a (salt_at (S j))) n)%Qc).
  { intros j Hj.
    rewrite (dvec_spec_entry vol base target j _ (salt_at_nth j Hj)).
    cbn [to_number]. apply dvec_entry_Fin; auto.
    intros i. apply Ha, salt_at_in. lia. }
  unfold squared_error, qp_objective, needed_norm, residual.
  rewrite A_shape, H_shape, dvec_shape, needed_shape.
  rewrite (quad_form_H_spec vol a x Ha).
  cbn [seq fold_left].
  rewrite !HA, !HN, !HD by lia.
  clearbody n. clear HA HN HD Ha.
  cbn [ion_at ions nth Nat.sub].
  unfold lit. cbn [js_add js_sub js_neg js_mul].
  apply f_equal.
  exact (least_squares_q (fun j => a (salt_at j)) n (fun j => nth j x (Q2Qc 0))).
Qed.

Lemma X9_objective_is_squared_error_witness :
  js_gt (lit 20) (lit 0) = true
  /\ profile_finite scenario_base = true
  /\ profile_finite scenario_target = true
  /\ forall x : list Qc,
      squared_error (buildQuadprogMatrices (lit 20) scenario_base scenario_target) x
      = (qp_objective (buildQuadprogMatrices (lit 20) scenario_base scenario_target) x
         + needed_norm (buildQuadprogMatrices (lit 20) scenario_base scenario_target))%num.
Proof.
  split; [reflexivity | split; [reflexivity | split; [reflexivity | ]]].
  intros x.
  apply (X9_objective_is_squared_error (lit 20) scenario_base scenario_target x);
    reflexivity.
Defined.

(** ** The solution mapper on arbitrary solver output *)

Lemma js_or_not_positive (c : option number) :
  js_gt (to_number c) (lit 0) = false ->
  js_gt (js_or c (lit 0)) (lit 0) = false.
Proof.
  destruct c as [x | ]; cbn [to_number js_or]; [ | reflexivity].
  intros Hx. destruct (truthy x); [exact Hx | reflexivity].
Qed.

(** X10.  When no component of the solver's answer is positive (zeros,
    negative values, NaN or missing entries), no salt is applied: the run
    is still reported feasible, the achieved profile is the base profile
    unchanged and every deviation is base minus target. *)
Theorem X10_nothing_positive_nothing_added :
  forall env vol base target log sol,
    solver_solution env vol base target = Some sol ->
    no_positive_component sol = true ->
    exists r,
      optimizeWithQP env vol base target log = (Normal r, log ++ [SolveQPCalled])
      /\ feasible r = true
      /\ calculatedProfile r = base
      /\ forall i, get_ion (deviations r) i
                   = (get_ion base i - get_ion target i)%num.
Proof.
  intros env vol base target log sol Hsol Hnp.
  exists (mapSolution vol base target sol).
  split; [now apply optimizeWithQP_on_solution | ].
  split; [reflexivity | ].
  unfold no_positive_component in Hnp; cbn [forallb] in Hnp.
  rewrite !andb_true_iff, !negb_true_iff in Hnp.
  destruct Hnp as (H1 & H2 & H3 & H4 & H5 & _).
  assert (Hp : calculatedProfile (mapSolution vol base target sol) = base).
  { unfold mapSolution; cbn [calculatedProfile].
    unfold achievedProfile, profile_salts, ions. cbn [fold_left].
    rewrite !set_get_same.
    rewrite !applySalt_skips;
      try (cbn [fst obj_get String.eqb Ascii.eqb Bool.eqb to_number];
           apply js_or_not_positive; assumption).
    reflexivity. }
  split; [exact Hp | ].
  intros i.
  assert (Hd : forall j,
             get_ion (deviations (mapSolution vol base target sol)) j
             = (get_ion (calculatedProfile (mapSolution vol base target sol)) j
                - get_ion target j)%num).
  { intros j. unfold mapSolution. cbn [deviations calculatedProfile].
    destruct j; cbn [get_ion Ca Mg Na SO4 Cl HCO3]; reflexivity. }
  now rewrite Hd, Hp.
Qed.

Lemma X10_nothing_positive_nothing_added_witness :
  solver_solution (env_returning [lit 0; lit 0; lit (-5); lit 0; NaN]) (lit 20)
    scenario_base scenario_target = Some [lit 0; lit 0; lit (-5); lit 0; NaN]
  /\ no_positive_component [lit 0; lit 0; lit (-5); lit 0; NaN] = true
  /\ exists r,
      optimizeWithQP (env_returning [lit 0; lit 0; lit (-5); lit 0; NaN]) (lit 20)
        scenario_base scenario_target []
      = (Normal r, [] ++ [SolveQPCalled])
      /\ feasible r = true
      /\ calculatedProfile r = scenario_base
      /\ forall i, get_ion (deviations r) i
                   = (get_ion scenario_base i - get_ion scenario_target i)%num.
Proof.
  split; [vm_compute; reflexivity | split; [vm_compute; reflexivity | ]].
  apply (X10_nothing_positive_nothing_added
           (env_returning [lit 0; lit 0; lit (-5); lit 0; NaN]) (lit 20)
           scenario_base scenario_target []
           [lit 0; lit 0; lit (-5); lit 0; NaN]);
    vm_compute; reflexivity.
Defined.

(** *** The achieved profile never falls below the base profile *)

Lemma per_unit_nonneg (s : Salt) (i : Ion) :
  In s BREWING_SALTS ->
  exists c, per_unit s i = Fin c /\ Qc_leb (Q2Qc 0) c = true.
Proof.
  unfold BREWING_SALTS; cbn [In].
  intros [<- | [<- | [<- | [<- | [<- | []]]]]]; destruct i;
    eexists; split; reflexivity.
Qed.

Lemma nonneg_term (vol : number) (q c : Qc) :
  js_gt vol (lit 0) = true ->
  Qc_leb (Q2Qc 0) q = true ->
  Qc_leb (Q2Qc 0) c = true ->
  exists t, ((Fin q * Fin c) / vol)%num = Fin t /\ Qc_leb (Q2Qc 0) t = true.
Proof.
  intros Hvol Hq Hc. cbn [js_mul].
  destruct vol as [v | | | ]; try discriminate.
  - change (js_gt (Fin v) (lit 0)) with (Qc_ltb (Q2Qc 0) v) in Hvol.
    rewrite (js_div_Fin_pos _ v Hvol).
    eexists; split; [reflexivity | ].
    apply Qc_leb_iff. apply Qc_leb_iff in Hq, Hc. apply Qc_ltb_iff in Hvol.
    revert Hq Hc Hvol. qc_to_q.
    generalize (this q), (this c), (this v). intros y z w Hy Hz Hw.
    apply Qmult_le_0_compat; [now apply Qmult_le_0_compat | ].
    apply Qinv_le_0_compat. now apply Qlt_le_weak.
  - eexists; split; reflexivity.
Qed.

Lemma applySalt_monotone vol qs p s i b q :
  In s BREWING_SALTS ->
  js_gt vol (lit 0) = true ->
  to_number (obj_get qs (name s)) = Fin q ->
  get_ion p i = Fin b ->
  exists b',
    get_ion (applySalt vol qs p (name s, contributions s)) i = Fin b'
    /\ (b <= b')%Qc.
Proof.
  intros Hs Hvol Hq Hb.
  destruct (Qc_ltb (Q2Qc 0) q) eqn:Hpos.
  - assert (Hnn : Qc_leb (Q2Qc 0) q = true).
    { apply Qc_leb_iff. apply Qc_ltb_iff in Hpos. now apply Qlt_le_weak. }
    rewrite (applySalt_adds_term vol qs p s i q Hs Hvol Hq Hnn), Hb.
    destruct (per_unit_nonneg s i Hs) as (c & Hc & Hcnn). rewrite Hc.
    destruct (nonneg_term vol q c Hvol Hnn Hcnn) as (t & Ht & Htnn).
    rewrite Ht. cbn [js_add]. eexists; split; [reflexivity | ].
    unfold Qcle. apply Qc_leb_iff in Htnn. revert Htnn. qc_to_q.
    generalize (this b), (this t). intros y z Hz. lra.
  - rewrite applySalt_skips.
    + exists b. split; [exact Hb | apply Qcle_refl].
    + cbn [fst]. rewrite Hq. exact Hpos.
Qed.

Lemma achieved_fold_monotone vol qs i :
  js_gt vol (lit 0) = true ->
  (forall s, In s BREWING_SALTS ->
             exists q, to_number (obj_get qs (name s)) = Fin q) ->
  forall (l : list Salt) (p : WaterProfile) (b : Qc),
    (forall s, In s l -> In s BREWING_SALTS) ->
    get_ion p i = Fin b ->
    exists b',
      get_ion (fold_left (applySalt vol qs)
                 (map (fun s => (name s, contributions s)) l) p) i = Fin b'
      /\ (b <= b')%Qc.
Proof.
  intros Hvol Hqs l.
  induction l as [ | s rest IH]; intros p b Hin Hb.
  - exists b. split; [exact Hb | apply Qcle_refl].
  - cbn [map fold_left].
    destruct (Hqs s (Hin s (or_introl eq_refl))) as (q & Hq).
    destruct (applySalt_monotone vol qs p s i b q
                (Hin s (or_introl eq_refl)) Hvol Hq Hb) as (b1 & Hb1 & Hle1).
    destruct (IH _ b1 (fun s' Hs' => Hin s' (or_intror Hs')) Hb1)
      as (b2 & Hb2 & Hle2).
    exists b2. split; [exact Hb2 | eapply Qcle_trans; eassumption].
Qed.

Lemma js_or_finite (c : option number) :
  match c with Some x => isFinite x | None => true end = true ->
  exists q, js_or c (lit 0) = Fin q.
Proof.
  destruct c as [[x | | | ] | ]; cbn [isFinite js_or]; try discriminate;
    intros _; [destruct (truthy (Fin x)) | ]; eexists; reflexivity.
Qed.

Lemma mapSolution_finite_quantities vol base target sol :
  finite_solution sol = true ->
  forall s, In s BREWING_SALTS ->
    exists q,
      to_number (obj_get (saltAdditions (mapSolution vol base target sol)) (name s))
      = Fin q.
Proof.
  unfold finite_solution; cbn [forallb]. rewrite !andb_true_iff.
  intros (H1 & H2 & H3 & H4 & H5 & _) s.
  unfold mapSolution; cbn [saltAdditions].
  unfold BREWING_SALTS; cbn [In].
  intros [<- | [<- | [<- | [<- | [<- | []]]]]];
    cbn [name obj_get String.eqb Ascii.eqb Bool.eqb to_number];
    apply js_or_finite; assumption.
Qed.

Lemma keep_precision_is_identity (l : list Ion) (p : WaterProfile) :
  fold_left (fun (q : WaterProfile) ion => set_ion q ion (get_ion q ion)) l p = p.
Proof.
  induction l as [ | i rest IH]; [reflexivity | ].
  cbn [fold_left]. now rewrite set_get_same.
Qed.

(** X11.  Salts only add ions.  For a volume that validation accepts, a
    finite base profile and a finite solver answer of any sign, every
    concentration of the achieved profile is at least the base
    concentration: a negative component of the answer never lowers an
    ion. *)
Theorem X11_achieved_profile_never_below_base :
  forall env vol base target log sol,
    volume_in_range vol = true ->
    profile_finite base = true ->
    solver_solution env vol base target = Some sol ->
    finite_solution sol = true ->
    exists r,
      optimizeWithQP env vol base target log = (Normal r, log ++ [SolveQPCalled])
      /\ forall i,
          js_le (get_ion base i) (get_ion (calculatedProfile r) i) = true.
Proof.
  intros env vol base target log sol Hrange Hfin Hsol Hfs.
  pose proof (volume_in_range_positive vol Hrange) as Hvol.
  exists (mapSolution vol base target sol).
  split; [now apply optimizeWithQP_on_solution | ].
  intros i.
  change (calculatedProfile (mapSolution vol base target sol))
    with (achievedProfile vol base
            (saltAdditions (mapSolution vol base target sol))).
  unfold achievedProfile.
  rewrite keep_precision_is_identity, profile_salts_catalog.
  destruct (achieved_fold_monotone vol _ i Hvol
              (mapSolution_finite_quantities vol base target sol Hfs)
              BREWING_SALTS base (to_Qc (get_ion base i)) (fun s Hs => Hs)
              (profile_finite_ion base i Hfin)) as (b' & Hb' & Hle).
  rewrite Hb', (profile_finite_ion base i Hfin).
  cbn [js_le]. now apply Qc_leb_true.
Qed.

Lemma X11_achieved_profile_never_below_base_witness :
  volume_in_range (lit 20) = true
  /\ profile_finite scenario_base = true
  /\ solver_solution (env_returning negative_solution) (lit 20) scenario_base
       scenario_target = Some negative_solution
  /\ finite_solution negative_solution = true
  /\ exists r,
      optimizeWithQP (env_returning negative_solution) (lit 20) scenario_base
        scenario_target [] = (Normal r, [] ++ [SolveQPCalled])
      /\ forall i,
          js_le (get_ion scenario_base i) (get_ion (calculatedProfile r) i)
          = true.
Proof.
  repeat (split; [vm_compute; reflexivity | ]).
  apply (X11_achieved_profile_never_below_base
           (env_returning negative_solution) (lit 20) scenario_base
           scenario_target [] negative_solution);
    vm_compute; reflexivity.
Defined.

(** ** What display rounding can produce *)

Lemma small_to_zero_range (x : number) :
  small_to_zero x = lit 0
  \/ js_le (lit 0.1) (small_to_zero x) = true
  \/ (isNaN x = true /\ small_to_zero x = NaN).
Proof.
  destruct x as [q | | | ].
  - rewrite small_to_zero_Fin.
    destruct (Qc_ltb q (Q2Qc 0.1)) eqn:Hq; [now left | right; left].
    rewrite round1_Fin. unfold lit. cbn [js_le].
    pose proof (tenths_not_small _ (floor_at_least_one q Hq)) as Hk.
    rewrite Qc_ltb_negb_leb in Hk. now apply negb_false_iff in Hk.
  - right; left. reflexivity.
  - left. reflexivity.
  - right; right. split; reflexivity.
Qed.

Lemma round1_not_nan (x : number) : isNaN x = false -> isNaN (round1 x) = false.
Proof. destruct x; try discriminate; reflexivity. Qed.

Lemma js_or_not_nan (c : option number) : isNaN (js_or c (lit 0)) = false.
Proof.
  destruct c as [[q | | | ] | ]; cbn [js_or truthy]; try reflexivity.
  destruct (Qc_sign q); reflexivity.
Qed.

Lemma display_policy_range (x : number) :
  isNaN x = false ->
  display_policy x = lit 0 \/ js_le (lit 0.1) (display_policy x) = true.
Proof.
  intros Hx. rewrite <- small_to_zero_round1.
  destruct (small_to_zero_range (round1 x)) as [H0 | [Hle | [Hnan _]]];
    [now left | now right | ].
  rewrite (round1_not_nan x Hx) in Hnan. discriminate.
Qed.

Lemma NoDup_salt_names : NoDup salt_names.
Proof. repeat constructor; cbn [In]; intuition discriminate. Qed.

(** X12.  On every successful run the five additions that
    [calculateWaterAdditions] reports are never negative and never
    strictly between 0 and 0.1, whatever the solver returned: each is
    exactly 0 or at least 0.1. *)
Theorem X12_reported_additions_zero_or_at_least_a_tenth :
  forall env vol base target log sol,
    valid (validateInputs vol base target) = true ->
    solver_solution env vol base target = Some sol ->
    exists cr,
      calculateWaterAdditions env (mkCalculationInput vol base target) log
      = (Normal cr, log ++ [SolveQPCalled])
      /\ success cr = true
      /\ map fst (additions cr) = salt_names
      /\ Forall (fun e => snd e = lit 0 \/ js_le (lit 0.1) (snd e) = true)
           (additions cr).
Proof.
  intros env vol base target log sol Hv Hsol.
  destruct (calculateWaterAdditions_on_solution env vol base target log sol
              Hv Hsol) as (cr & Hrun & Hok & Hadd).
  exists cr. split; [exact Hrun | split; [exact Hok | ]].
  rewrite Hadd, roundSmallAdditions_map, saltAdditionsDisplay_mapSolution.
  - rewrite map_map. unfold mapSolution; cbn [saltAdditions map fst snd].
    split; [reflexivity | ].
    repeat (apply Forall_cons;
            [ cbn [snd]; rewrite small_to_zero_round1;
              apply display_policy_range, js_or_not_nan
            | ]).
    apply Forall_nil.
  - unfold mapSolution; cbn [saltAdditionsDisplay Object_keys map fst].
    exact NoDup_salt_names.
Qed.

Lemma X12_reported_additions_zero_or_at_least_a_tenth_witness :
  valid (validateInputs (lit 20) scenario_base scenario_target) = true
  /\ solver_solution (env_returning negative_solution) (lit 20) scenario_base
       scenario_target = Some negative_solution
  /\ exists cr,
      calculateWaterAdditions (env_returning negative_solution)
        (mkCalculationInput (lit 20) scenario_base scenario_target) []
      = (Normal cr, [] ++ [SolveQPCalled])
      /\ success cr = true
      /\ map fst (additions cr) = salt_names
      /\ Forall (fun e => snd e = lit 0 \/ js_le (lit 0.1) (snd e) = true)
           (additions cr).
Proof.
  split; [vm_compute; reflexivity | split; [vm_compute; reflexivity | ]].
  apply (X12_reported_additions_zero_or_at_least_a_tenth
           (env_returning negative_solution) (lit 20) scenario_base
           scenario_target [] negative_solution);
    vm_compute; reflexivity.
Defined.

Lemma obj_get_none_iff (o : JsObject) (k : string) :
  obj_get o k = None <-> ~ In k (Object_keys o).
Proof.
  unfold Object_keys.
  induction o as [ | [k' v] rest IH]; cbn [obj_get map fst In]; [tauto | ].
  destruct (String.eqb_spec k' k) as [-> | Hne].
  - split; [discriminate | ]. intros Hn. exfalso. apply Hn. now left.
  - rewrite IH. tauto.
Qed.

Lemma obj_get_map (g : number -> number) (o : JsObject) (k : string) :
  obj_get (map (fun e => (fst e, g (snd e))) o) k = option_map g (obj_get o k).
Proof.
  induction o as [ | [k' v] rest IH]; [reflexivity | ].
  cbn [map fst snd obj_get]. destruct (String.eqb k' k); [reflexivity | exact IH].
Qed.

(** X13.  [roundSmallAdditions] keeps the keys of the object it is given,
    in their order: it adds none, drops none, and a key that is missing
    from the input is missing from the output. *)
Theorem X13_roundSmallAdditions_keeps_keys :
  forall s : SaltAdditions,
    Object_keys (roundSmallAdditions s) = Object_keys s
    /\ List.length (roundSmallAdditions s) = List.length s
    /\ forall k, obj_get (roundSmallAdditions s) k = None <-> obj_get s k = None.
Proof.
  intros s. pose proof (roundSmallAdditions_keys s) as Hk.
  split; [exact Hk | split].
  - unfold Object_keys in Hk.
    rewrite <- (length_map fst (roundSmallAdditions s)), Hk. apply length_map.
  - intros k. now rewrite !obj_get_none_iff, Hk.
Qed.

(** X14.  On an object with distinct keys [roundSmallAdditions] changes
    each amount on its own: the amount under a key becomes 0 when it is
    below 0.1 (negative amounts included), its rounding to one decimal
    otherwise; the result is 0, at least 0.1, or NaN for a NaN amount. *)
Theorem X14_roundSmallAdditions_per_amount :
  forall (s : SaltAdditions) (k : string) (v : number),
    NoDup (Object_keys s) ->
    obj_get s k = Some v ->
    obj_get (roundSmallAdditions s) k
    = Some (if js_lt v (lit 0.1) then lit 0 else round1 v)
    /\ (to_number (obj_get (roundSmallAdditions s) k) = lit 0
        \/ js_le (lit 0.1) (to_number (obj_get (roundSmallAdditions s) k)) = true
        \/ isNaN v = true).
Proof.
  intros s k v Hnd Hget.
  rewrite (roundSmallAdditions_map s Hnd), obj_get_map, Hget.
  cbn [option_map to_number]. split; [reflexivity | ].
  fold (small_to_zero v).
  destruct (small_to_zero_range v) as [H0 | [Hle | [Hnan _]]]; auto.
Qed.

Lemma X14_roundSmallAdditions_per_amount_witness :
  NoDup (Object_keys [("Gypsum (CaSO4)", lit (-0.3)); ("Table Salt (NaCl)", lit 0.26)])
  /\ obj_get [("Gypsum (CaSO4)", lit (-0.3)); ("Table Salt (NaCl)", lit 0.26)]
       "Table Salt (NaCl)" = Some (lit 0.26)
  /\ obj_get (roundSmallAdditions
                [("Gypsum (CaSO4)", lit (-0.3)); ("Table Salt (NaCl)", lit 0.26)])
       "Table Salt (NaCl)"
     = Some (if js_lt (lit 0.26) (lit 0.1) then lit 0 else round1 (lit 0.26)).
Proof.
  assert (Hnd : NoDup (Object_keys [("Gypsum (CaSO4)", lit (-0.3));
                                    ("Table Salt (NaCl)", lit 0.26)])).
  { repeat constructor; cbn [In]; intuition discriminate. }
  split; [exact Hnd | split; [reflexivity | ]].
  apply (X14_roundSmallAdditions_per_amount
           [("Gypsum (CaSO4)", lit (-0.3)); ("Table Salt (NaCl)", lit 0.26)]
           "Table Salt (NaCl)" (lit 0.26) Hnd eq_refl).
Defined.

(** ** brewing-analysis.ts on finite profiles *)

Lemma finite_add (a b : number) :
  isFinite a = true -> isFinite b = true -> isFinite (a + b)%num = true.
Proof. destruct a, b; try discriminate; reflexivity. Qed.

Lemma finite_sub (a b : number) :
  isFinite a = true -> isFinite b = true -> isFinite (a - b)%num = true.
Proof. destruct a, b; try discriminate; reflexivity. Qed.

Lemma finite_mul (a b : number) :
  isFinite a = true -> isFinite b = true -> isFinite (a * b)%num = true.
Proof. destruct a, b; try discriminate; reflexivity. Qed.

Lemma finite_div_pos (a b : number) :
  isFinite a = true -> isFinite b = true -> js_gt b (lit 0) = true ->
  isFinite (a / b)%num = true.
Proof.
  destruct a as [x | | | ], b as [y | | | ]; try discriminate.
  intros _ _ Hy. change (js_gt (Fin y) (lit 0)) with (Qc_ltb (Q2Qc 0) y) in Hy.
  now rewrite (js_div_Fin_pos x y Hy).
Qed.

Lemma finite_round (a : number) :
  isFinite a = true -> isFinite (Math_round a) = true.
Proof. destruct a; try discriminate; reflexivity. Qed.

Ltac finite_tac :=
  repeat first
    [ assumption
    | reflexivity
    | apply finite_round
    | apply finite_sub
    | apply finite_add
    | apply finite_mul
    | apply finite_div_pos ].

(** X15.  On a profile that validation accepts (every concentration
    finite and within its range), [calculateBrewingAnalysis] reports no NaN
    and no infinity for alkalinity, residual alkalinity, total hardness and
    effective hardness. *)
Theorem X15_analysis_of_valid_profile_is_finite :
  forall p : WaterProfile,
    profile_in_range p = true ->
    let a := calculateBrewingAnalysis p in
    isFinite (alkalinity a) = true
    /\ isFinite (residual_alkalinity a) = true
    /\ isFinite (total_hardness a) = true
    /\ isFinite (effective_hardness a) = true.
Proof.
  intros p Hrange a. subst a.
  pose proof (profile_in_range_finite p Hrange) as Hp. clear Hrange.
  unfold profile_finite, requiredIons in Hp; cbn [forallb get_ion] in Hp.
  rewrite !andb_true_iff in Hp.
  destruct Hp as (HCa & HMg & HNa & HSO4 & HCl & HHCO3 & _).
  unfold calculateBrewingAnalysis;
    cbn [alkalinity residual_alkalinity total_hardness effective_hardness].
  repeat split; finite_tac.
Qed.

Lemma X15_analysis_of_valid_profile_is_finite_witness :
  profile_in_range scenario_base = true
  /\ isFinite (residual_alkalinity (calculateBrewingAnalysis scenario_base)) = true.
Proof.
  split; [vm_compute; reflexivity | ].
  pose proof (X15_analysis_of_valid_profile_is_finite scenario_base) as H.
  destruct H as (_ & Hra & _); [vm_compute; reflexivity | exact Hra].
Defined.

Lemma round1_monotone (x y : Qc) :
  (x <= y)%Qc -> js_le (round1 (Fin x)) (round1 (Fin y)) = true.
Proof.
  intros Hxy. rewrite !round1_Fin. cbn [js_le]. apply Qc_leb_iff.
  assert (Hk : (Qfloor (x * Q2Qc 10 + Q2Qc 0.5)%Qc
                <= Qfloor (y * Q2Qc 10 + Q2Qc 0.5)%Qc)%Z).
  { apply Qfloor_resp_le. unfold Qcle in Hxy. qc_to_q.
    generalize dependent (this x). generalize (this y). intros b a Hab. lra. }
  remember (Qfloor (x * Q2Qc 10 + Q2Qc 0.5)%Qc) as k1 eqn:E1.
  remember (Qfloor (y * Q2Qc 10 + Q2Qc 0.5)%Qc) as k2 eqn:E2.
  clear E1 E2 Hxy. rewrite Zle_Qle in Hk.
  qc_to_q. apply Qmult_le_compat_r; [exact Hk | ].
  unfold Qle; cbn; lia.
Qed.

(** X16.  For finite concentrations with calcium and magnesium not
    negative, the analysis is ordered as the chemistry says: the reported
    effective hardness (Ca/1.4 + Mg/1.7) is at most the reported total
    hardness (Ca + Mg), and the reported residual alkalinity is at most
    the reported alkalinity; rounding to one decimal keeps both orders. *)
Theorem X16_hardness_and_alkalinity_order :
  forall p : WaterProfile,
    profile_finite p = true ->
    js_le (lit 0) (Ca p) = true ->
    js_le (lit 0) (Mg p) = true ->
    let a := calculateBrewingAnalysis p in
    js_le (effective_hardness a) (total_hardness a) = true
    /\ js_le (residual_alkalinity a) (alkalinity a) = true.
Proof.
  intros p Hp HCa HMg a. subst a.
  unfold profile_finite, requiredIons in Hp; cbn [forallb get_ion] in Hp.
  rewrite !andb_true_iff in Hp.
  destruct Hp as (FCa & FMg & _ & _ & _ & FH & _).
  unfold calculateBrewingAnalysis;
    cbn [alkalinity residual_alkalinity total_hardness effective_hardness].
  destruct (Ca p) as [ca | | | ]; try discriminate.
  destruct (Mg p) as [mg | | | ]; try discriminate.
  destruct (HCO3 p) as [h | | | ]; try discriminate.
  change (js_le (lit 0) (Fin ca)) with (Qc_leb (Q2Qc 0) ca) in HCa.
  change (js_le (lit 0) (Fin mg)) with (Qc_leb (Q2Qc 0) mg) in HMg.
  apply Qc_leb_iff in HCa, HMg.
  change (this (Q2Qc 0)) with 0%Q in HCa, HMg.
  assert (E14 : (/ 1.4 == 5 # 7)%Q) by reflexivity.
  assert (E17 : (/ 1.7 == 10 # 17)%Q) by reflexivity.
  split.
  - change (js_le (round1 (Fin (ca / Q2Qc 1.4 + mg / Q2Qc 1.7)%Qc))
              (round1 (Fin (ca + mg)%Qc)) = true).
    apply round1_monotone. unfold Qcle. qc_to_q. rewrite E14, E17.
    generalize dependent (this ca). generalize dependent (this mg).
    intros y Hy z Hz. lra.
  - change (js_le
              (round1 (Fin (h * (Q2Qc 50 / Q2Qc 61)
                            + - (ca / Q2Qc 1.4 + mg / Q2Qc 1.7))%Qc))
              (round1 (Fin (h * (Q2Qc 50 / Q2Qc 61))%Qc)) = true).
    apply round1_monotone. unfold Qcle. qc_to_q. rewrite E14, E17.
    generalize (this h * (50 * / 61))%Q.
    generalize dependent (this ca). generalize dependent (this mg).
    intros y Hy z Hz w. lra.
Qed.

Lemma X16_hardness_and_alkalinity_order_witness :
  profile_finite scenario_base = true
  /\ js_le (lit 0) (Ca scenario_base) = true
  /\ js_le (lit 0) (Mg scenario_base) = true
  /\ js_le (effective_hardness (calculateBrewingAnalysis scenario_base))
       (total_hardness (calculateBrewingAnalysis scenario_base)) = true.
Proof.
  repeat (split; [reflexivity | ]).
  pose proof (X16_hardness_and_alkalinity_order scenario_base eq_refl eq_refl
                eq_refl) as (Hh & _).
  exact Hh.
Defined.

(** ** calculator.ts: the profile helper against the optimizer *)

(** X17.  [calculateFinalProfileFromAdditions] carries its own copy of the
    ten contribution constants; they are the constants of the catalog.  For
    every base profile, amounts and volume, each ion it returns is the base
    concentration plus the combined contribution of the amounts (each amount
    times the catalog constant of its salt, negative amounts included)
    divided by the volume, rounded to one decimal place. *)
Theorem X17_profile_helper_uses_catalog_constants :
  forall (base : WaterProfile) (qs : SaltAdditions) (vol : number) (i : Ion),
    get_ion (calculateFinalProfileFromAdditions base qs vol) i
    = round1 (get_ion base i + combined_contribution qs i / vol)%num.
Proof.
  intros base qs vol i.
  unfold calculateFinalProfileFromAdditions, combined_contribution, round1,
    BREWING_SALTS.
  destruct i;
    cbn [get_ion Ca Mg Na SO4 Cl HCO3 flat_map app fold_left name contributions
           ion_obj_get Ion_eqb];
    reflexivity.
Qed.

(** ** [validateMCPInput] on untyped arguments *)

Lemma typeof_number (v : JsValue) :
  String.eqb (typeof v) "number" = true <-> exists n, v = JNumber n.
Proof.
  destruct v; cbn; split; try discriminate; try (intros [n Hn]; discriminate);
    eauto.
Qed.

Lemma truthy_object (v : JsValue) :
  js_truthy v = true -> String.eqb (typeof v) "object" = true ->
  exists props, v = JObject props.
Proof. destruct v; cbn; try discriminate; eauto. Qed.

Lemma number_property_means_object (v : JsValue) (k : string) (n : number) :
  get_prop v k = Normal (JNumber n) -> exists props, v = JObject props.
Proof. destruct v; cbn; try discriminate; eauto. Qed.

Lemma check_ions_passes (b t : JsValue) (l : list Ion) :
  check_ions b t l = Normal None
  <-> forall i, In i l ->
        (exists x, get_prop b (ion_name i) = Normal (JNumber x))
        /\ (exists y, get_prop t (ion_name i) = Normal (JNumber y)).
Proof.
  induction l as [ | i rest IH]; cbn [check_ions In].
  - split; [intros _ i [] | reflexivity].
  - destruct (get_prop b (ion_name i)) as [vb | e] eqn:Eb; cbn [bindc].
    + destruct (String.eqb (typeof vb) "number") eqn:Tb; cbn [negb].
      * apply typeof_number in Tb. destruct Tb as [x ->].
        destruct (get_prop t (ion_name i)) as [vt | e] eqn:Et; cbn [bindc].
        -- destruct (String.eqb (typeof vt) "number") eqn:Tt; cbn [negb].
           ++ apply typeof_number in Tt. destruct Tt as [y ->].
              rewrite IH. split.
              ** intros Hall j [<- | Hj]; [ | now apply Hall].
                 rewrite Eb, Et. eauto.
              ** intros Hall j Hj. apply Hall. now right.
           ++ split; [discriminate | ]. intros Hall.
              destruct (Hall i (or_introl eq_refl)) as [_ [y Hy]].
              rewrite Et in Hy. injection Hy as ->. discriminate.
        -- split; [discriminate | ]. intros Hall.
           destruct (Hall i (or_introl eq_refl)) as [_ [y Hy]].
           rewrite Et in Hy. discriminate.
      * split; [discriminate | ]. intros Hall.
        destruct (Hall i (or_introl eq_refl)) as [[x Hx] _].
        rewrite Eb in Hx. injection Hx as ->. discriminate.
    + split; [discriminate | ]. intros Hall.
      destruct (Hall i (or_introl eq_refl)) as [[x Hx] _].
      rewrite Eb in Hx. discriminate.
Qed.

Lemma check_ions_outcomes (b t : JsValue) (l : list Ion) :
  forall r, check_ions b t l = Normal (Some r) ->
            mcp_valid r = false /\ is_some (mcp_error r) = true.
Proof.
  induction l as [ | i rest IH]; cbn [check_ions]; [discriminate | ].
  intros r.
  destruct (get_prop b (ion_name i)) as [vb | e]; cbn [bindc]; [ | discriminate].
  destruct (String.eqb (typeof vb) "number"); cbn [negb];
    [ | intros [= <-]; split; reflexivity].
  destruct (get_prop t (ion_name i)) as [vt | e]; cbn [bindc]; [ | discriminate].
  destruct (String.eqb (typeof vt) "number"); cbn [negb];
    [apply IH | intros [= <-]; split; reflexivity].
Qed.

(** The number stored under a key, for the reading of a typed input off
    accepted arguments. *)
Lemma read_back_profile (b : JsValue) :
  (forall i, exists x, get_prop b (ion_name i) = Normal (JNumber x)) ->
  exists p : WaterProfile,
    forall i, get_prop b (ion_name i) = Normal (JNumber (get_ion p i)).
Proof.
  intros Hall.
  destruct (Hall IonCa) as [ca Hca]. destruct (Hall IonMg) as [mg Hmg].
  destruct (Hall IonNa) as [na Hna]. destruct (Hall IonSO4) as [so Hso].
  destruct (Hall IonCl) as [cl Hcl]. destruct (Hall IonHCO3) as [hc Hhc].
  exists (mkWaterProfile ca mg na so cl hc).
  intros i; destruct i; assumption.
Qed.

Lemma validateMCPInput_accepts_carried (args : JsValue) (input : CalculationInput) :
  carries args input -> truthy (volume_liters input) = true ->
  validateMCPInput args = Normal (mkMCPValidation true None).
Proof.
  unfold validateMCPInput, carries.
  destruct input as [vol pb pt].
  cbn [volume_liters base_profile target_profile].
  intros (Hv & b & t & Hb & Ht & Hions) Tv.
  rewrite Hv. cbn [bindc js_truthy typeof]. rewrite Tv.
  change (String.eqb "number" "number") with true. cbn [negb orb].
  rewrite Hb. cbn [bindc].
  destruct (number_property_means_object b _ _ (proj1 (Hions IonCa)))
    as [bp ->].
  cbn [js_truthy typeof].
  change (String.eqb "object" "object") with true. cbn [negb orb].
  rewrite Ht. cbn [bindc].
  destruct (number_property_means_object t _ _ (proj2 (Hions IonCa)))
    as [tp ->].
  cbn [js_truthy typeof].
  change (String.eqb "object" "object") with true. cbn [negb orb].
  rewrite (proj2 (check_ions_passes (JObject bp) (JObject tp) requiredIons)).
  - reflexivity.
  - intros i _. split; eexists; apply Hions.
Qed.

(** X18.  [validateMCPInput] accepts exactly the arguments that carry a
    typed input with a truthy volume: [volume_liters] is a number other
    than 0 and NaN, and [base_profile] and [target_profile] hold a number
    under each of the six ion names.  A volume of 0 is therefore refused
    here although it is a number, while negative volumes and NaN or
    out-of-range ion values pass this check. *)
Theorem X18_validateMCPInput_accepts_exactly_typed_input :
  forall args : JsValue,
    validateMCPInput args = Normal (mkMCPValidation true None)
    <-> exists input : CalculationInput,
          carries args input /\ truthy (volume_liters input) = true.
Proof.
  intros args. unfold validateMCPInput, carries. split.
  - destruct (get_prop args "volume_liters") as [v | e] eqn:Ev; cbn [bindc];
      [ | discriminate].
    destruct (js_truthy v) eqn:Tv; cbn [negb orb]; [ | discriminate].
    destruct (String.eqb (typeof v) "number") eqn:Nv; cbn [negb];
      [ | discriminate].
    apply typeof_number in Nv. destruct Nv as [vol ->]. cbn [js_truthy] in Tv.
    destruct (get_prop args "base_profile") as [b | e] eqn:Eb; cbn [bindc];
      [ | discriminate].
    destruct (js_truthy b); cbn [negb orb]; [ | discriminate].
    destruct (String.eqb (typeof b) "object"); cbn [negb]; [ | discriminate].
    destruct (get_prop args "target_profile") as [t | e] eqn:Et; cbn [bindc];
      [ | discriminate].
    destruct (js_truthy t); cbn [negb orb]; [ | discriminate].
    destruct (String.eqb (typeof t) "object"); cbn [negb]; [ | discriminate].
    destruct (check_ions b t requiredIons) as [[r | ] | e] eqn:Ec; cbn [bindc];
      try discriminate.
    + intros [= ->]. destruct (check_ions_outcomes b t _ _ Ec). discriminate.
    + intros _. pose proof (proj1 (check_ions_passes b t requiredIons) Ec) as Hall.
      destruct (read_back_profile b
                  (fun i => proj1 (Hall i (requiredIons_complete i)))) as [pb Hpb].
      destruct (read_back_profile t
                  (fun i => proj2 (Hall i (requiredIons_complete i)))) as [pt Hpt].
      exists (mkCalculationInput vol pb pt).
      cbn [volume_liters base_profile target_profile].
      split; [ | exact Tv]. split; [reflexivity | ].
      exists b, t. repeat split; auto.
  - intros (input & Hc & Tv).
    exact (validateMCPInput_accepts_carried args input Hc Tv).
Qed.

(** X19.  [validateMCPInput] throws only when its argument is [undefined]
    or [null].  On every other value it returns, and what it returns is
    either the acceptance without an error message or a refusal with
    one. *)
Theorem X19_validateMCPInput_outcomes :
  forall args : JsValue,
    ((exists e, validateMCPInput args = Thrown e)
     <-> args = JUndefined \/ args = JNull)
    /\ forall r, validateMCPInput args = Normal r ->
                 r = mkMCPValidation true None
                 \/ (mcp_valid r = false /\ is_some (mcp_error r) = true).
Proof.
  intros args.
  assert (Hret : forall r, validateMCPInput args = Normal r ->
                   r = mkMCPValidation true None
                   \/ (mcp_valid r = false /\ is_some (mcp_error r) = true)).
  { intros r. unfold validateMCPInput.
    destruct (get_prop args "volume_liters") as [v | e]; cbn [bindc];
      [ | discriminate].
    destruct (negb (js_truthy v) || negb (String.eqb (typeof v) "number"));
      [intros [= <-]; right; split; reflexivity | ].
    destruct (get_prop args "base_profile") as [b | e]; cbn [bindc];
      [ | discriminate].
    destruct (negb (js_truthy b) || negb (String.eqb (typeof b) "object"));
      [intros [= <-]; right; split; reflexivity | ].
    destruct (get_prop args "target_profile") as [t | e]; cbn [bindc];
      [ | discriminate].
    destruct (negb (js_truthy t) || negb (String.eqb (typeof t) "object"));
      [intros [= <-]; right; split; reflexivity | ].
    destruct (check_ions b t requiredIons) as [[r' | ] | e] eqn:Ec; cbn [bindc];
      try discriminate.
    - intros [= <-]. right. exact (check_ions_outcomes b t _ _ Ec).
    - intros [= <-]. now left. }
  split; [ | exact Hret].
  split.
  - intros [e He]. destruct args; try (now left); try (now right); exfalso.
    all: revert He; unfold validateMCPInput; cbn [get_prop bindc js_truthy negb orb];
      try discriminate.
    destruct (negb (js_truthy (props_get props "volume_liters"))
              || negb (String.eqb (typeof (props_get props "volume_liters"))
                         "number")); [discriminate | ].
    destruct (negb (js_truthy (props_get props "base_profile"))
              || negb (String.eqb (typeof (props_get props "base_profile"))
                         "object")) eqn:Eb; [discriminate | ].
    destruct (negb (js_truthy (props_get props "target_profile"))
              || negb (String.eqb (typeof (props_get props "target_profile"))
                         "object")) eqn:Et; [discriminate | ].
    apply orb_false_iff in Eb, Et.
    destruct Eb as [Tb Ob], Et as [Tt Ot].
    apply negb_false_iff in Tb, Ob, Tt, Ot.
    destruct (truthy_object _ Tb Ob) as [bp ->].
    destruct (truthy_object _ Tt Ot) as [tp ->].
    assert (Hno : forall l e', check_ions (JObject bp) (JObject tp) l <> Thrown e').
    { induction l as [ | i rest IH]; intros e'; cbn [check_ions get_prop bindc];
        [discriminate | ].
      destruct (negb (String.eqb (typeof (props_get bp (ion_name i))) "number"));
        [discriminate | ].
      destruct (negb (String.eqb (typeof (props_get tp (ion_name i))) "number"));
        [discriminate | apply IH]. }
    destruct (check_ions (JObject bp) (JObject tp) requiredIons)
      as [[r | ] | e'] eqn:Ec; cbn [bindc]; try discriminate.
    exfalso. exact (Hno _ _ Ec).
  - intros [-> | ->]; eexists; reflexivity.
Qed.

Lemma carries_input_value (input : CalculationInput) :
  carries (input_value input) input.
Proof.
  unfold carries, input_value. split; [reflexivity | ].
  exists (profile_value (base_profile input)),
         (profile_value (target_profile input)).
  split; [reflexivity | split; [reflexivity | ]].
  intros i; split; destruct i; reflexivity.
Qed.

(** X20.  The two validators compose: the object built from a typed input
    that [validateInputs] accepts is always accepted by
    [validateMCPInput]; the range check is the stricter of the two. *)
Theorem X20_range_valid_input_passes_type_check :
  forall input : CalculationInput,
    valid (validateInputs (volume_liters input) (base_profile input)
             (target_profile input)) = true ->
    validateMCPInput (input_value input) = Normal (mkMCPValidation true None).
Proof.
  intros input Hv.
  apply (validateMCPInput_accepts_carried _ input (carries_input_value input)).
  destruct (volume_liters input) as [q | | | ] eqn:Evol;
    try reflexivity.
  - cbn [truthy]. destruct (Qc_leb q (Q2Qc 0)) eqn:E0.
    + rewrite (validateInputs_bad_volume (Fin q)) in Hv by (left; exact E0).
      discriminate.
    + rewrite (positive_sign q); [reflexivity | ].
      rewrite Qc_ltb_negb_leb, E0. reflexivity.
  - rewrite (validateInputs_bad_volume NaN) in Hv by (right; reflexivity).
    discriminate.
Qed.

Lemma X20_range_valid_input_passes_type_check_witness :
  validateMCPInput (input_value scenario_input)
  = Normal (mkMCPValidation true None).
Proof.
  apply (X20_range_valid_input_passes_type_check scenario_input).
  vm_compute. reflexivity.
Defined.

(** ** The report of a successful run *)

Lemma calculateWaterAdditions_report env vol base target log sol :
  valid (validateInputs vol base target) = true ->
  solver_solution env vol base target = Some sol ->
  exists cr,
    calculateWaterAdditions env (mkCalculationInput vol base target) log
    = (Normal cr, log ++ [SolveQPCalled])
    /\ additions cr
       = roundSmallAdditions (saltAdditionsDisplay (mapSolution vol base target sol))
    /\ (forall i,
          get_ion (calculated_profile cr) i
          = round1 (get_ion (calculatedProfile (mapSolution vol base target sol)) i))
    /\ (forall i,
          get_ion (result_deviations cr) i
          = round1 (get_ion (calculatedProfile (mapSolution vol base target sol)) i
                    - get_ion target i)%num)
    /\ total_salt_weight cr
       = round1 (fold_left (fun sum weight => (sum + weight)%num)
                   (map snd (additions cr)) (lit 0))
    /\ brewing_analysis cr = calculateBrewingAnalysis (calculated_profile cr).
Proof.
  intros Hv Hsol.
  unfold calculateWaterAdditions, try_catch.
  cbn [volume_liters base_profile target_profile].
  rewrite Hv. cbn [negb].
  rewrite (bind_normal _ _ _ _ _
             (optimizeSaltAdditions_on_solution env vol base target log sol Hsol)).
  unfold ret. eexists; split; [reflexivity | ].
  cbn [additions calculated_profile result_deviations total_salt_weight
         brewing_analysis].
  split; [reflexivity | ].
  split; [intros i; destruct i; reflexivity | ].
  split; [intros i; destruct i; reflexivity | ].
  split; reflexivity.
Qed.

Lemma round1_bounds (x : Qc) :
  exists k : Z,
    round1 (Fin x) = Fin (tenths k)
    /\ (inject_Z k <= this x * 10 + (1 # 2))%Q
    /\ (this x * 10 + (1 # 2) < inject_Z k + 1)%Q.
Proof.
  exists (Qfloor (x * Q2Qc 10 + Q2Qc 0.5)%Qc). split; [apply round1_Fin | ].
  assert (E : this (x * Q2Qc 10 + Q2Qc 0.5)%Qc == this x * 10 + (1 # 2)).
  { qc_to_q. apply Qplus_comp; [reflexivity | now compute]. }
  pose proof (Qfloor_le (x * Q2Qc 10 + Q2Qc 0.5)%Qc) as Hlo.
  pose proof (Qlt_floor (x * Q2Qc 10 + Q2Qc 0.5)%Qc) as Hhi.
  remember (Qfloor (x * Q2Qc 10 + Q2Qc 0.5)%Qc) as k eqn:Ek. clear Ek.
  rewrite inject_Z_plus in Hhi. change (inject_Z 1) with 1%Q in Hhi.
  rewrite E in Hlo, Hhi. split; assumption.
Qed.

Lemma tenths_value (k : Z) : this (tenths k) == inject_Z k * (1 # 10).
Proof. qc_to_q. reflexivity. Qed.

Lemma this_minus (a b : Qc) : this (a - b)%Qc == this a - this b.
Proof. unfold Qcminus. qc_to_q. reflexivity. Qed.

Lemma this_plus (a b : Qc) : this (a + b)%Qc == this a + this b.
Proof. qc_to_q. reflexivity. Qed.

Lemma tenths_plus (k1 k2 : Z) : (tenths k1 + tenths k2)%Qc = tenths (k1 + k2).
Proof.
  apply Qc_is_canon. rewrite this_plus, !tenths_value.
  rewrite inject_Z_plus. ring.
Qed.

Lemma tenths_zero : tenths 0 = Q2Qc 0.
Proof. apply Qc_is_canon. reflexivity. Qed.

(** X21.  For two profiles that validation accepts, [calculateDeviations]
    reports on each ion a finite deviation that is less than one display
    unit (0.1) away from the difference calculated minus target, and
    exactly 0 where the calculated concentration equals the target. *)
Theorem X21_calculateDeviations_within_a_tenth :
  forall (target calc : WaterProfile) (i : Ion),
    profile_in_range target = true ->
    profile_in_range calc = true ->
    let exact := (get_ion calc i - get_ion target i)%num in
    let d := get_ion (calculateDeviations target calc) i in
    isFinite d = true
    /\ js_lt (exact - lit 0.1) d = true
    /\ js_lt d (exact + lit 0.1) = true
    /\ (get_ion calc i = get_ion target i -> d = lit 0).
Proof.
  intros target calc i Htr Hcr exact d.
  pose proof (profile_in_range_finite target Htr) as Ht.
  pose proof (profile_in_range_finite calc Hcr) as Hc. clear Htr Hcr.
  assert (Ed : d = round1 exact) by (subst d exact; destruct i; reflexivity).
  subst exact. rewrite Ed. clear Ed d.
  rewrite (profile_finite_ion target i Ht), (profile_finite_ion calc i Hc).
  generalize (to_Qc (get_ion calc i)) (to_Qc (get_ion target i)).
  intros c t.
  change (Fin c - Fin t)%num with (Fin (c - t)).
  destruct (round1_bounds (c - t)) as (k & -> & Hlo & Hhi).
  split; [reflexivity | ].
  change (Fin (c - t) - lit 0.1)%num with (Fin (c - t - Q2Qc 0.1)).
  change (Fin (c - t) + lit 0.1)%num with (Fin (c - t + Q2Qc 0.1)).
  cbn [js_lt].
  split; [ | split].
  - apply Qc_ltb_iff. rewrite this_minus, tenths_value.
    change (this (Q2Qc 0.1)) with (1 # 10).
    generalize dependent (this (c - t)%Qc). generalize (inject_Z k).
    intros w y Hlo Hhi. lra.
  - apply Qc_ltb_iff. rewrite this_plus, tenths_value.
    change (this (Q2Qc 0.1)) with (1 # 10).
    generalize dependent (this (c - t)%Qc). generalize (inject_Z k).
    intros w y Hlo Hhi. lra.
  - intros [= ->]. unfold lit. f_equal. rewrite <- tenths_zero. f_equal.
    assert (A : (-1 < k)%Z).
    { rewrite Zlt_Qlt. rewrite this_minus in Hhi.
      change (inject_Z (-1)) with (-1 # 1)%Q.
      generalize dependent (inject_Z k). generalize (this t).
      intros y w Hlo Hhi. lra. }
    assert (B : (k < 1)%Z).
    { rewrite Zlt_Qlt. rewrite this_minus in Hlo.
      change (inject_Z 1) with 1%Q.
      generalize dependent (inject_Z k). generalize (this t).
      intros y w Hlo Hhi. lra. }
    lia.
Qed.

Lemma X21_calculateDeviations_within_a_tenth_witness :
  profile_in_range scenario_target = true
  /\ profile_in_range scenario_base = true
  /\ let exact :=
       (get_ion scenario_base IonCa - get_ion scenario_target IonCa)%num in
     let d := get_ion (calculateDeviations scenario_target scenario_base) IonCa in
     isFinite d = true
     /\ js_lt (exact - lit 0.1) d = true
     /\ js_lt d (exact + lit 0.1) = true
     /\ (get_ion scenario_base IonCa = get_ion scenario_target IonCa -> d = lit 0).
Proof.
  split; [vm_compute; reflexivity | split; [vm_compute; reflexivity | ]].
  apply (X21_calculateDeviations_within_a_tenth scenario_target
           scenario_base IonCa); vm_compute; reflexivity.
Defined.

Lemma display_policy_amount (x : number) :
  isNaN x = false -> display_amount (small_to_zero (round1 x)).
Proof.
  destruct x as [q | | | ]; try discriminate; intros _.
  - rewrite round1_Fin.
    set (k := Qfloor (q * Q2Qc 10 + Q2Qc 0.5)%Qc).
    rewrite small_to_zero_Fin.
    destruct (Qc_ltb (tenths k) (Q2Qc 0.1)) eqn:Hk.
    + right. exists 0%Z. split; [lia | ]. unfold lit. now rewrite tenths_zero.
    + right. exists k. split.
      * pose proof (floor_at_least_one _ Hk) as H1.
        rewrite floor_of_tenths in H1. lia.
      * rewrite round1_Fin, floor_of_tenths. reflexivity.
  - left. reflexivity.
  - right. exists 0%Z. split; [lia | ].
    change (small_to_zero (round1 NInf)) with (lit 0).
    unfold lit. now rewrite tenths_zero.
Qed.

Lemma display_amount_add (a b : number) :
  display_amount a -> display_amount b -> display_amount (a + b)%num.
Proof.
  intros [-> | (k1 & H1 & ->)] [-> | (k2 & H2 & ->)];
    try (left; reflexivity).
  right. exists (k1 + k2)%Z. split; [lia | ].
  cbn [js_add]. now rewrite tenths_plus.
Qed.

Lemma display_amount_round (v : number) : display_amount v -> round1 v = v.
Proof.
  intros [-> | (k & _ & ->)]; [reflexivity | ].
  rewrite round1_Fin, floor_of_tenths. reflexivity.
Qed.

Lemma display_amount_nonneg (v : number) :
  display_amount v -> js_le (lit 0) v = true.
Proof.
  intros [-> | (k & Hk & ->)]; [reflexivity | ].
  unfold lit. cbn [js_le]. apply Qc_leb_iff. rewrite tenths_value.
  change (this (Q2Qc 0)) with 0%Q.
  rewrite Zle_Qle in Hk. change (inject_Z 0) with 0%Q in Hk.
  generalize dependent (inject_Z k). intros w Hw. lra.
Qed.

Lemma display_amount_sum (l : list number) (acc : number) :
  Forall display_amount l -> display_amount acc ->
  display_amount (fold_left (fun sum weight => (sum + weight)%num) l acc).
Proof.
  intros Hl. revert acc.
  induction Hl as [ | v rest Hv _ IH]; intros acc Hacc; [exact Hacc | ].
  cbn [fold_left]. apply IH. now apply display_amount_add.
Qed.

Lemma tenths_inj (a b : Z) : tenths a = tenths b -> a = b.
Proof.
  intros H. rewrite <- (floor_of_tenths a), H. apply floor_of_tenths.
Qed.

Lemma display_amount_zero : display_amount (lit 0).
Proof. right. exists 0%Z. split; [lia | ]. unfold lit. now rewrite tenths_zero. Qed.

Lemma display_amount_add_zero (a b : number) :
  display_amount a -> display_amount b ->
  ((a + b)%num = lit 0 <-> a = lit 0 /\ b = lit 0).
Proof.
  intros [-> | (k1 & H1 & ->)] [-> | (k2 & H2 & ->)];
    try (split; [discriminate | intros [Ha Hb]; discriminate]).
  cbn [js_add]. rewrite tenths_plus. unfold lit. rewrite <- tenths_zero.
  split.
  - intros H. assert (H' : tenths (k1 + k2) = tenths 0) by congruence.
    apply tenths_inj in H'.
    assert (k1 = 0%Z) by lia. assert (k2 = 0%Z) by lia. subst. now split.
  - intros [Ha Hb].
    assert (Ha' : tenths k1 = tenths 0) by congruence.
    assert (Hb' : tenths k2 = tenths 0) by congruence.
    apply tenths_inj in Ha', Hb'. subst. reflexivity.
Qed.

Lemma display_amount_sum_zero (l : list number) (acc : number) :
  Forall display_amount l -> display_amount acc ->
  (fold_left (fun sum weight => (sum + weight)%num) l acc = lit 0
   <-> acc = lit 0 /\ Forall (fun v => v = lit 0) l).
Proof.
  intros Hl. revert acc.
  induction Hl as [ | v rest Hv _ IH]; intros acc Hacc; cbn [fold_left].
  - split; [intros H; split; [exact H | constructor] | intros [H _]; exact H].
  - rewrite (IH _ (display_amount_add _ _ Hacc Hv)).
    rewrite (display_amount_add_zero _ _ Hacc Hv). split.
    + intros [[Ha Hv0] Hr]. split; [exact Ha | now constructor].
    + intros [Ha Hall]. inversion Hall; subst. now repeat split.
Qed.

(** X23.  On every successful run, whatever the solver returned, the
    reported total salt weight is never negative and never NaN: it is a
    whole, non-negative number of tenths (or infinite), and it is zero
    exactly when every one of the five reported additions is zero. *)
Theorem X23_total_weight_of_reported_additions :
  forall env vol base target log sol,
    valid (validateInputs vol base target) = true ->
    solver_solution env vol base target = Some sol ->
    exists r,
      calculateWaterAdditions env (mkCalculationInput vol base target) log
      = (Normal r, log ++ [SolveQPCalled])
      /\ display_amount (total_salt_weight r)
      /\ js_le (lit 0) (total_salt_weight r) = true
      /\ (total_salt_weight r = lit 0
          <-> Forall (fun e => snd e = lit 0) (additions r)).
Proof.
  intros env vol base target log sol Hv Hsol.
  destruct (calculateWaterAdditions_report env vol base target log sol Hv Hsol)
    as (r & Hrun & Hadd & _ & _ & Htot & _).
  exists r. split; [exact Hrun | ].
  assert (Hall : Forall display_amount (map snd (additions r))).
  { rewrite Hadd, roundSmallAdditions_map, saltAdditionsDisplay_mapSolution.
    - rewrite !map_map. unfold mapSolution; cbn [saltAdditions map fst snd].
      repeat (apply Forall_cons; [apply display_policy_amount, js_or_not_nan | ]).
      apply Forall_nil.
    - unfold mapSolution; cbn [saltAdditionsDisplay Object_keys map fst].
      exact NoDup_salt_names. }
  pose proof (display_amount_sum _ _ Hall display_amount_zero) as Hsum.
  rewrite Htot, (display_amount_round _ Hsum).
  split; [exact Hsum | split; [now apply display_amount_nonneg | ]].
  rewrite (display_amount_sum_zero _ _ Hall display_amount_zero).
  rewrite Forall_map. split; [intros [_ H]; exact H | intros H; now split].
Qed.

Lemma X23_total_weight_of_reported_additions_witness :
  exists r,
    calculateWaterAdditions (env_returning negative_solution) scenario_input []
    = (Normal r, [] ++ [SolveQPCalled])
    /\ display_amount (total_salt_weight r)
    /\ js_le (lit 0) (total_salt_weight r) = true
    /\ (total_salt_weight r = lit 0
        <-> Forall (fun e => snd e = lit 0) (additions r)).
Proof.
  apply (X23_total_weight_of_reported_additions
           (env_returning negative_solution) (lit 20) scenario_base
           scenario_target [] negative_solution); vm_compute; reflexivity.
Defined.

(** X24.  On every path, success or failure, the brewing analysis that
    [calculateWaterAdditions] reports is the analysis of the very profile
    it reports as calculated profile: the rounded achieved profile on
    success, the base profile on failure. *)
Theorem X24_analysis_is_of_the_reported_profile :
  forall env input log,
  exists r log',
    calculateWaterAdditions env input log = (Normal r, log')
    /\ brewing_analysis r = calculateBrewingAnalysis (calculated_profile r).
Proof.
  intros env [vol base target] log.
  destruct (valid (validateInputs vol base target)) eqn:Hv.
  - destruct (solver_solution env vol base target) as [sol | ] eqn:Hs.
    + destruct (calculateWaterAdditions_report env vol base target log sol
                  Hv Hs) as (r & Hrun & _ & _ & _ & _ & Han).
      exists r, (log ++ [SolveQPCalled]). split; assumption.
    + destruct (calculateWaterAdditions_on_failure env vol base target log Hv Hs)
        as (log' & Hrun).
      eexists; eexists; split; [exact Hrun | reflexivity].
  - eexists; eexists; split.
    + apply calculateWaterAdditions_invalid.
      cbn [volume_liters base_profile target_profile]. exact Hv.
    + reflexivity.
Qed.
